(** * OpenRouterContentGenerator: a shallow embedding and its properties

    The development follows [packages/core/src/core/openRouterContentGenerator.ts].
    The adapter translates requests written against the structured
    content-parts schema into chat-completion messages, translates the
    chat-completion answer back, and decodes a server-sent-event byte stream
    into partial responses.

    Layout: JavaScript strings and the string methods the source calls, the
    values produced by [JSON.parse] with property access, the UTF-8
    [TextDecoder], the types of both schemas, the transport, and the
    methods of the class; then the vocabulary of the properties; then the
    properties themselves. *)

From Stdlib Require Import List NArith ZArith QArith Qround Bool String Ascii Lia.
From Stdlib Require Strings.Byte.
From Stdlib Require Import Floats.PrimFloat DecimalString.
Import ListNotations.

Set Warnings "-inexact-float".

Local Open Scope N_scope.
Local Open Scope list_scope.

(** ** JavaScript strings

    A JavaScript string is a sequence of UTF-16 code units; [length],
    [split], [trim], [startsWith] and [slice] all work on code units. *)

Definition code_unit := N.
Definition jsstring := list code_unit.

(** [lit] turns a source literal (ASCII only in this file) into code units. *)
Definition lit (s : string) : jsstring :=
  map N_of_ascii (list_ascii_of_string s).

Fixpoint jsstring_eqb (a b : jsstring) : bool :=
  match a, b with
  | [], [] => true
  | x :: a', y :: b' => (x =? y) && jsstring_eqb a' b'
  | _, _ => false
  end.

Definition LF : code_unit := 10.

(** [s.split('\n')]: the pieces of [s] between line feeds; always at least
    one piece, the last one being what follows the last line feed. *)
Fixpoint split_LF (s : jsstring) : list jsstring :=
  match s with
  | [] => [[]]
  | c :: r =>
      if c =? LF then [] :: split_LF r
      else match split_LF r with
           | h :: t => (c :: h) :: t
           | [] => [[c]]
           end
  end.

(** [lines.pop()]: removes the last element and returns it, [None] standing
    for [undefined] on an empty array. *)
Definition pop {A} (l : list A) : list A * option A :=
  match rev l with
  | [] => ([], None)
  | x :: r => (rev r, Some x)
  end.

(** WhiteSpace and LineTerminator code units of ECMAScript, the ones
    [String.prototype.trim] strips. *)
Definition is_js_whitespace (c : code_unit) : bool :=
  ((9 <=? c) && (c <=? 13))
  || (c =? 32) || (c =? 160) || (c =? 5760)
  || ((8192 <=? c) && (c <=? 8202))
  || (c =? 8232) || (c =? 8233) || (c =? 8239) || (c =? 8287)
  || (c =? 12288) || (c =? 65279).

Fixpoint trimStart (s : jsstring) : jsstring :=
  match s with
  | c :: r => if is_js_whitespace c then trimStart r else s
  | [] => []
  end.

Definition trimEnd (s : jsstring) : jsstring := rev (trimStart (rev s)).

Definition trim (s : jsstring) : jsstring := trimEnd (trimStart s).

Fixpoint startsWith (s prefix : jsstring) : bool :=
  match prefix, s with
  | [], _ => true
  | p :: prefix', c :: s' => (c =? p) && startsWith s' prefix'
  | _ :: _, [] => false
  end.

(** [s.slice(n)] for a non-negative [n]. *)
Definition slice (n : nat) (s : jsstring) : jsstring := skipn n s.

(** [arr.join('')] on an array of strings. *)
Definition join (l : list jsstring) : jsstring := List.concat l.

(** ** Completions

    A JavaScript expression either produces a value or throws.  The three
    exceptions that can arise in this file are the [SyntaxError] of
    [JSON.parse], the [TypeError] of a property read on [undefined] or
    [null], and the [Error] objects the source constructs itself. *)

Inductive exn : Type :=
| SyntaxError
| TypeError
| Error (message : jsstring).

Inductive completion (A : Type) : Type :=
| Normal (a : A)
| Throw (e : exn).
Arguments Normal {A} a.
Arguments Throw {A} e.

Definition bind {A B} (c : completion A) (k : A -> completion B) : completion B :=
  match c with
  | Normal a => k a
  | Throw e => Throw e
  end.

Notation "x <- c ;; k" := (bind c (fun x => k))
  (at level 61, c at next level, right associativity).

(** ** JSON values

    The values [JSON.parse] builds, and [undefined], which property reads
    produce.  A number keeps the decimal it was written as,
    [mantissa * 10 ^ exp10]: the source only ever tests a number for
    truthiness and passes it on.  An object keeps its members in the order
    of the text, duplicates included. *)

Unset Elimination Schemes.
Inductive jsval : Type :=
| JUndefined
| JNull
| JBool (b : bool)
| JNumber (mantissa exp10 : Z)
| JString (s : jsstring)
| JArray (items : list jsval)
| JObject (members : list (jsstring * jsval)).
Set Elimination Schemes.

(** The property names the source reads; [P_0] is the index in [choices[0]]. *)
Inductive property : Type :=
| P_choices | P_0 | P_delta | P_content | P_finish_reason | P_message.

Definition property_name (p : property) : jsstring :=
  match p with
  | P_choices => lit "choices"
  | P_0 => lit "0"
  | P_delta => lit "delta"
  | P_content => lit "content"
  | P_finish_reason => lit "finish_reason"
  | P_message => lit "message"
  end.

(** A later member of the same name replaces an earlier one. *)
Fixpoint own_property (members : list (jsstring * jsval)) (name : jsstring)
  : option jsval :=
  match members with
  | [] => None
  | (k, v) :: rest =>
      match own_property rest name with
      | Some v' => Some v'
      | None => if jsstring_eqb k name then Some v else None
      end
  end.

(** [v.p] and [v[0]].  None of the names of [property] is inherited from a
    prototype, so on an object only own members count; an array answers to
    its index, a string to its first code unit, and a boolean or a number
    has no such property.  Reading a property of [undefined] or [null]
    throws. *)
Definition get (v : jsval) (p : property) : completion jsval :=
  match v with
  | JUndefined | JNull => Throw TypeError
  | JObject members =>
      match own_property members (property_name p) with
      | Some x => Normal x
      | None => Normal JUndefined
      end
  | JArray items =>
      match p with
      | P_0 => Normal (nth 0 items JUndefined)
      | _ => Normal JUndefined
      end
  | JString s =>
      match p, s with
      | P_0, c :: _ => Normal (JString [c])
      | _, _ => Normal JUndefined
      end
  | JBool _ | JNumber _ _ => Normal JUndefined
  end.

(** Optional chaining, [v?.p]. *)
Definition get_optional (v : jsval) (p : property) : completion jsval :=
  match v with
  | JUndefined | JNull => Normal JUndefined
  | _ => get v p
  end.

(** A decimal is read as the nearest double, ties to even: it becomes zero
    exactly when its magnitude is at most [2 ^ -1075]. *)
Definition number_is_zero (mantissa exp10 : Z) : bool :=
  ((mantissa =? 0)
   || ((exp10 <? 0) && (Z.abs mantissa * 2 ^ 1075 <=? 10 ^ (- exp10))))%Z.

Definition ToBoolean (v : jsval) : bool :=
  match v with
  | JUndefined | JNull => false
  | JBool b => b
  | JNumber m e => negb (number_is_zero m e)
  | JString [] => false
  | JString (_ :: _) => true
  | JArray _ | JObject _ => true
  end.

(** [a || b] *)
Definition logical_or (a b : jsval) : jsval := if ToBoolean a then a else b.

(** ** [JSON.parse]

    The grammar of ECMA-404 on code units.  The scanners for strings and
    numbers recurse on the text; values nest, so [parse_value] carries a
    fuel that [JSON_parse] sets above twice the length of the text, more
    than any nesting the text can hold. *)

Definition is_json_whitespace (c : code_unit) : bool :=
  (c =? 32) || (c =? 9) || (c =? 10) || (c =? 13).

Fixpoint skip_whitespace (s : jsstring) : jsstring :=
  match s with
  | c :: r => if is_json_whitespace c then skip_whitespace r else s
  | [] => []
  end.

Definition is_digit (c : code_unit) : bool := (48 <=? c) && (c <=? 57).

Definition hex_value (c : code_unit) : option N :=
  if is_digit c then Some (c - 48)
  else if (97 <=? c) && (c <=? 102) then Some (c - 87)
  else if (65 <=? c) && (c <=? 70) then Some (c - 55)
  else None.

Definition hex4 (a b c d : code_unit) : option code_unit :=
  match hex_value a, hex_value b, hex_value c, hex_value d with
  | Some x, Some y, Some z, Some w => Some (((x * 16 + y) * 16 + z) * 16 + w)
  | _, _, _, _ => None
  end.

Definition push {A} (c : A) (o : option (list A * jsstring))
  : option (list A * jsstring) :=
  match o with
  | Some (l, rest) => Some (c :: l, rest)
  | None => None
  end.

(** The characters of a string literal after its opening quote, up to and
    without the closing quote. *)
Fixpoint string_body (s : jsstring) : option (jsstring * jsstring) :=
  match s with
  | [] => None
  | 34 :: r => Some ([], r)
  | 92 :: r =>
      match r with
      | 34 :: r' => push 34 (string_body r')
      | 92 :: r' => push 92 (string_body r')
      | 47 :: r' => push 47 (string_body r')
      | 98 :: r' => push 8 (string_body r')
      | 102 :: r' => push 12 (string_body r')
      | 110 :: r' => push 10 (string_body r')
      | 114 :: r' => push 13 (string_body r')
      | 116 :: r' => push 9 (string_body r')
      | 117 :: a :: b :: c :: d :: r' =>
          match hex4 a b c d with
          | Some u => push u (string_body r')
          | None => None
          end
      | _ => None
      end
  | c :: r => if c <? 32 then None else push c (string_body r)
  end.

Fixpoint digits (s : jsstring) : list N * jsstring :=
  match s with
  | c :: r =>
      if is_digit c then let (ds, rest) := digits r in ((c - 48) :: ds, rest)
      else ([], s)
  | [] => ([], [])
  end.

Definition digits_value (ds : list N) : Z :=
  fold_left (fun acc d => (acc * 10 + Z.of_N d)%Z) ds 0%Z.

(** A number literal: an optional minus sign; a zero, or a non-zero digit
    and more digits; optionally a point and at least one digit; optionally
    [e] or [E], a sign and at least one digit. *)

Definition sign_part (s : jsstring) : bool * jsstring :=
  match s with
  | 45 :: r => (true, r)
  | _ => (false, s)
  end.

Definition integer_part (s : jsstring) : option (list N * jsstring) :=
  match s with
  | 48 :: r => Some ([0], r)
  | c :: _ => if is_digit c then Some (digits s) else None
  | [] => None
  end.

Definition fraction_part (s : jsstring) : option (list N * jsstring) :=
  match s with
  | 46 :: r =>
      match digits r with
      | ([], _) => None
      | (d :: ds, rest) => Some (d :: ds, rest)
      end
  | _ => Some ([], s)
  end.

Definition exponent_digits (minus : bool) (s : jsstring) : option (Z * jsstring) :=
  match digits s with
  | ([], _) => None
  | (d :: ds, rest) =>
      Some (if minus then (- digits_value (d :: ds))%Z
            else digits_value (d :: ds), rest)
  end.

Definition exponent_part (s : jsstring) : option (Z * jsstring) :=
  match s with
  | 101 :: r | 69 :: r =>
      match r with
      | 45 :: t => exponent_digits true t
      | 43 :: t => exponent_digits false t
      | _ => exponent_digits false r
      end
  | _ => Some (0%Z, s)
  end.

Definition number_literal (s : jsstring) : option (jsval * jsstring) :=
  let (negative, s1) := sign_part s in
  match integer_part s1 with
  | None => None
  | Some (int_digits, s2) =>
      match fraction_part s2 with
      | None => None
      | Some (frac_digits, s3) =>
          match exponent_part s3 with
          | None => None
          | Some (e, s4) =>
              let m := digits_value (int_digits ++ frac_digits) in
              Some (JNumber (if negative then (- m)%Z else m)
                            (e - Z.of_nat (List.length frac_digits))%Z, s4)
          end
      end
  end.

Definition keyword (word : string) (v : jsval) (s : jsstring)
  : option (jsval * jsstring) :=
  if startsWith s (lit word)
  then Some (v, skipn (List.length (lit word)) s)
  else None.

(** After white space, the character [c] and what follows it. *)
Definition closes (c : code_unit) (s : jsstring) : option jsstring :=
  match skip_whitespace s with
  | x :: r => if x =? c then Some r else None
  | [] => None
  end.

(** A value, given the parsers for what it may contain: the elements of an
    array after its opening bracket, the members of an object after its
    opening brace. *)
Definition value_step
  (elements : jsstring -> option (list jsval * jsstring))
  (members : jsstring -> option (list (jsstring * jsval) * jsstring))
  (s : jsstring) : option (jsval * jsstring) :=
  match skip_whitespace s with
  | [] => None
  | c :: r =>
      if c =? 123 then
        match closes 125 r with
        | Some r' => Some (JObject [], r')
        | None =>
            match members r with
            | Some (ms, r') => Some (JObject ms, r')
            | None => None
            end
        end
      else if c =? 91 then
        match closes 93 r with
        | Some r' => Some (JArray [], r')
        | None =>
            match elements r with
            | Some (vs, r') => Some (JArray vs, r')
            | None => None
            end
        end
      else if c =? 34 then
        match string_body r with
        | Some (str, r') => Some (JString str, r')
        | None => None
        end
      else if c =? 116 then keyword "true" (JBool true) (c :: r)
      else if c =? 102 then keyword "false" (JBool false) (c :: r)
      else if c =? 110 then keyword "null" JNull (c :: r)
      else number_literal (c :: r)
  end.

(** One or more values separated by commas, up to the closing bracket. *)
Definition elements_step
  (value : jsstring -> option (jsval * jsstring))
  (elements : jsstring -> option (list jsval * jsstring))
  (s : jsstring) : option (list jsval * jsstring) :=
  match value s with
  | Some (v, r) =>
      match skip_whitespace r with
      | c :: r' =>
          if c =? 44 then push v (elements r')
          else if c =? 93 then Some ([v], r')
          else None
      | [] => None
      end
  | None => None
  end.

(** One or more members [name : value] separated by commas, up to the
    closing brace. *)
Definition members_step
  (value : jsstring -> option (jsval * jsstring))
  (members : jsstring -> option (list (jsstring * jsval) * jsstring))
  (s : jsstring) : option (list (jsstring * jsval) * jsstring) :=
  match closes 34 s with
  | Some r =>
      match string_body r with
      | Some (name, r1) =>
          match closes 58 r1 with
          | Some r2 =>
              match value r2 with
              | Some (v, r3) =>
                  match skip_whitespace r3 with
                  | c :: r4 =>
                      if c =? 44 then push (name, v) (members r4)
                      else if c =? 125 then Some ([(name, v)], r4)
                      else None
                  | [] => None
                  end
              | None => None
              end
          | None => None
          end
      | None => None
      end
  | None => None
  end.

Fixpoint parse_value (fuel : nat) (s : jsstring) : option (jsval * jsstring) :=
  match fuel with
  | O => None
  | S fuel' => value_step (parse_elements fuel') (parse_members fuel') s
  end
with parse_elements (fuel : nat) (s : jsstring)
  : option (list jsval * jsstring) :=
  match fuel with
  | O => None
  | S fuel' => elements_step (parse_value fuel') (parse_elements fuel') s
  end
with parse_members (fuel : nat) (s : jsstring)
  : option (list (jsstring * jsval) * jsstring) :=
  match fuel with
  | O => None
  | S fuel' => members_step (parse_value fuel') (parse_members fuel') s
  end.

Definition JSON_parse (text : jsstring) : completion jsval :=
  match parse_value (2 * List.length text + 2) text with
  | Some (v, rest) =>
      match skip_whitespace rest with
      | [] => Normal v
      | _ :: _ => Throw SyntaxError
      end
  | None => Throw SyntaxError
  end.

(** ** [TextDecoder]

    [new TextDecoder()] decodes UTF-8, replaces malformed input by U+FFFD
    and drops a leading byte order mark.  With [{ stream: true }] the
    decoder keeps its state from one call of [decode] to the next, so a
    sequence cut by a chunk boundary is completed by the next chunk.  The
    decoder of the Encoding Standard consumes one byte at a time. *)

Record TextDecoder : Type := mkTextDecoder {
  code_point : N;
  bytes_seen : N;
  bytes_needed : N;
  lower_boundary : N;
  upper_boundary : N;
  BOM_seen : bool
}.

Definition new_TextDecoder : TextDecoder :=
  mkTextDecoder 0 0 0 128 191 false.

(** The decoder between two sequences, with the flag of the byte order
    mark carried over. *)
Definition at_rest (bom : bool) : TextDecoder :=
  mkTextDecoder 0 0 0 128 191 bom.

Definition REPLACEMENT : N := 65533.

(** A byte met when no sequence is open. *)
Definition utf8_lead (bom : bool) (b : N) : TextDecoder * list N :=
  if b <=? 127 then (at_rest bom, [b])
  else if (194 <=? b) && (b <=? 223)
  then (mkTextDecoder (N.land b 31) 0 1 128 191 bom, [])
  else if (224 <=? b) && (b <=? 239)
  then (mkTextDecoder (N.land b 15) 0 2
          (if b =? 224 then 160 else 128)
          (if b =? 237 then 159 else 191) bom, [])
  else if (240 <=? b) && (b <=? 244)
  then (mkTextDecoder (N.land b 7) 0 3
          (if b =? 240 then 144 else 128)
          (if b =? 244 then 143 else 191) bom, [])
  else (at_rest bom, [REPLACEMENT]).

(** One byte through the UTF-8 decoder: the new state and the scalar
    values it completes.  A byte that cannot continue the open sequence
    closes it with U+FFFD and is then read again as a lead byte. *)
Definition utf8_handler (d : TextDecoder) (b : N) : TextDecoder * list N :=
  let bom := BOM_seen d in
  if bytes_needed d =? 0 then utf8_lead bom b
  else if (b <? lower_boundary d) || (upper_boundary d <? b)
  then let (d', out) := utf8_lead bom b in (d', REPLACEMENT :: out)
  else
    let cp := N.lor (N.shiftl (code_point d) 6) (N.land b 63) in
    if bytes_seen d + 1 =? bytes_needed d
    then (at_rest bom, [cp])
    else (mkTextDecoder cp (bytes_seen d + 1) (bytes_needed d) 128 191 bom, []).

(** A scalar value as UTF-16 code units. *)
Definition utf16 (cp : N) : jsstring :=
  if cp <? 65536 then [cp]
  else [55296 + N.shiftr (cp - 65536) 10; 56320 + N.land (cp - 65536) 1023].

(** The first scalar value of the stream is dropped when it is the byte
    order mark U+FEFF. *)
Fixpoint serialize (bom : bool) (scalars : list N) : bool * jsstring :=
  match scalars with
  | [] => (bom, [])
  | cp :: rest =>
      let (bom', out) := serialize true rest in
      if bom then (bom', utf16 cp ++ out)
      else if cp =? 65279 then (bom', out)
      else (bom', utf16 cp ++ out)
  end.

Definition decode_byte (d : TextDecoder) (b : Byte.byte) : TextDecoder * jsstring :=
  let (d', scalars) := utf8_handler d (Byte.to_N b) in
  let (bom, out) := serialize (BOM_seen d') scalars in
  (mkTextDecoder (code_point d') (bytes_seen d') (bytes_needed d')
     (lower_boundary d') (upper_boundary d') bom, out).

(** [decoder.decode(value, { stream: true })] *)
Fixpoint decode (d : TextDecoder) (value : list Byte.byte) : TextDecoder * jsstring :=
  match value with
  | [] => (d, [])
  | b :: rest =>
      let (d1, out1) := decode_byte d b in
      let (d2, out2) := decode d1 rest in
      (d2, out1 ++ out2)
  end.

(** ** The request side of the content-parts schema

    [Content] and [Part] of [@google/genai], as far as the source reads
    them.  A part may carry text, something else, or both; [text] is
    [None] when the part has no [text] property (a property holding
    [undefined] is treated alike at both places that read it). *)

Inductive PartData : Type :=
| inlineData (mimeType data : jsstring)
| fileData (fileUri : jsstring)
| functionCall (name : jsstring) (args : jsval)
| functionResponse (name : jsstring) (response : jsval).

Record Part : Type := mkPart {
  text : option jsstring;
  other : option PartData
}.

Record Content : Type := mkContent {
  role : option jsstring;
  parts : option (list Part)
}.

(** [request.contents] reaches the adapter untyped.  An element of an array
    that is a bare part or a bare string has neither [role] nor [parts] and
    is read as [mkContent None None]. *)
Inductive ContentListUnion : Type :=
| contents_string (s : jsstring)
| contents_array (l : list Content)
| contents_content (c : Content)
| contents_part (p : Part)
| contents_undefined.

Definition typeof_string (c : ContentListUnion) : bool :=
  match c with contents_string _ => true | _ => false end.

Definition Array_isArray (c : ContentListUnion) : bool :=
  match c with contents_array _ => true | _ => false end.

Record GenerationConfig : Type := mkConfig {
  config_temperature : option float;
  topP : option float;
  maxOutputTokens : option float
}.

Record GenerateContentParameters : Type := mkParameters {
  contents : ContentListUnion;
  config : option GenerationConfig
}.

(** ** The chat-completion side *)

Record ChatMessage : Type := mkMessage {
  message_role : jsstring;
  message_content : jsstring
}.

Record RequestBody : Type := mkBody {
  body_model : jsstring;
  messages : list ChatMessage;
  stream : option bool;
  temperature : float;
  top_p : float;
  max_tokens : option float
}.

Record FetchRequest : Type := mkFetch {
  url : jsstring;
  method : jsstring;
  headers : list (jsstring * jsstring);
  body : RequestBody
}.

(** What [reader.read()] resolves to before the stream is done: a chunk of
    bytes, or a rejection.  A reader is the list of these; once the list is
    used up, [read] reports [done]. *)
Inductive ReadResult : Type :=
| ReadValue (value : list Byte.byte)
| ReadRejected (e : exn).

(** An answer of the transport.  [response_text] is what [text()] and
    [json()] read of the body, taken as already at hand: a body whose read
    fails is not modelled.  [response_body] is what the reader obtained from
    [body] delivers, [None] when there is no body. *)
Record FetchResponse : Type := mkResponse {
  ok : bool;
  status : N;
  statusText : jsstring;
  response_text : jsstring;
  response_body : option (list ReadResult)
}.

(** ** The response side of the content-parts schema *)

Record CandidateContent : Type := mkCandidateContent {
  candidate_parts : list jsval;
  candidate_role : jsstring
}.

Record Candidate : Type := mkCandidate {
  candidate_content : CandidateContent;
  finishReason : jsval;
  index : option N
}.

(** The fields only [convertOpenAIResponseToGemini] sets. *)
Record ResponseExtras : Type := mkExtras {
  functionCalls : list jsval;
  executableCode : jsval;
  codeExecutionResult : jsval;
  data : jsval
}.

Record GenerateContentResponse : Type := mkGenerateContentResponse {
  candidates : list Candidate;
  response_primary_text : jsval;
  extras : option ResponseExtras
}.

(** ** Effects: the transport

    A method runs against a world that answers [fetch] and records every
    invocation of it. *)

Record World : Type := mkWorld {
  transport : FetchRequest -> completion FetchResponse;
  invocations : list FetchRequest
}.

Definition M (A : Type) : Type := World -> completion A * World.

Definition ret {A} (a : A) : M A := fun w => (Normal a, w).

Definition throw {A} (e : exn) : M A := fun w => (Throw e, w).

Definition lift {A} (c : completion A) : M A := fun w => (c, w).

Definition mbind {A B} (m : M A) (k : A -> M B) : M B :=
  fun w =>
    match m w with
    | (Normal a, w') => k a w'
    | (Throw e, w') => (Throw e, w')
    end.

Notation "x <~ m ;; k" := (mbind m (fun x => k))
  (at level 61, m at next level, right associativity).

Definition fetch (request : FetchRequest) : M FetchResponse :=
  fun w => (transport w request,
            mkWorld (transport w) (invocations w ++ [request])).

(** ** [class OpenRouterContentGenerator]

    The private translators come first, since the public methods call them.
    The [userPromptId] argument of [generateContent] and
    [generateContentStream], which the source never reads, is left out. *)

Record OpenRouterContentGenerator : Type := mkGenerator {
  apiKey : jsstring;
  baseUrl : jsstring;
  model : jsstring
}.

(** [value || fallback] on an environment variable: unset and empty both
    give the fallback. *)
Definition or_default (value : option jsstring) (fallback : jsstring) : jsstring :=
  match value with
  | Some (c :: s) => c :: s
  | Some [] | None => fallback
  end.

Definition constructor (env : string -> option jsstring) (key : jsstring)
  : OpenRouterContentGenerator :=
  mkGenerator key
    (or_default (env "OPENROUTER_BASE_URL"%string)
                (lit "https://openrouter.ai/api/v1"))
    (or_default (env "OPENROUTER_MODEL"%string)
                (lit "google/gemini-2.0-flash-001")).

(** *** [convertContentsToMessages] *)

Definition text_is_truthy (p : Part) : bool :=
  match text p with
  | Some (_ :: _) => true
  | Some [] | None => false
  end.

Definition text_or_empty (p : Part) : jsstring :=
  match text p with
  | Some t => t
  | None => []
  end.

Definition convertContent (content : Content) : ChatMessage :=
  let role1 :=
    match role content with
    | Some r => if jsstring_eqb r (lit "model") then Some (lit "assistant") else Some r
    | None => None
    end in
  let role2 := or_default role1 (lit "user") in
  let parts1 := match parts content with Some l => l | None => [] end in
  let textParts := join (map text_or_empty (filter text_is_truthy parts1)) in
  mkMessage role2 textParts.

Definition convertContentsToMessages (c : ContentListUnion) : list ChatMessage :=
  match c with
  | contents_string s => [mkMessage (lit "user") s]
  | contents_array l => map convertContent l
  | contents_content _ | contents_part _ | contents_undefined => []
  end.

(** *** [convertOpenAIResponseToGemini] *)

Definition convertOpenAIResponseToGemini (d : jsval)
  : completion GenerateContentResponse :=
  choices <- get d P_choices ;;
  choice <- get choices P_0 ;;
  message <- get_optional choice P_message ;;
  c <- get_optional message P_content ;;
  let content := logical_or c (JString []) in
  choices' <- get d P_choices ;;
  choice' <- get choices' P_0 ;;
  finish_reason <- get_optional choice' P_finish_reason ;;
  Normal (mkGenerateContentResponse
            [mkCandidate (mkCandidateContent [content] (lit "model"))
                         finish_reason (Some 0)]
            content
            (Some (mkExtras [] JUndefined JUndefined d))).

(** *** [generateContent] *)

Definition number_toString (n : N) : jsstring :=
  lit (NilEmpty.string_of_uint (N.to_uint n)).

Definition nullish_or (v : option float) (fallback : float) : float :=
  match v with
  | Some x => x
  | None => fallback
  end.

Definition request_body (self : OpenRouterContentGenerator)
  (request : GenerateContentParameters) (streaming : option bool) : RequestBody :=
  let cfg := config request in
  mkBody (model self)
    (convertContentsToMessages (contents request))
    streaming
    (nullish_or (match cfg with Some c => config_temperature c | None => None end)
                0.7%float)
    (nullish_or (match cfg with Some c => topP c | None => None end) 1.0%float)
    (match cfg with Some c => maxOutputTokens c | None => None end).

Definition chat_completions (self : OpenRouterContentGenerator)
  (b : RequestBody) : FetchRequest :=
  mkFetch (baseUrl self ++ lit "/chat/completions") (lit "POST")
    [(lit "Content-Type", lit "application/json");
     (lit "Authorization", lit "Bearer " ++ apiKey self);
     (lit "HTTP-Referer", lit "https://github.com/google/gemini-cli");
     (lit "X-Title", lit "Gemini CLI")]
    b.

Definition api_error (response : FetchResponse) : exn :=
  Error (lit "OpenRouter API Error: " ++ number_toString (status response)
         ++ lit " " ++ statusText response ++ lit " - " ++ response_text response).

Definition generateContent (self : OpenRouterContentGenerator)
  (request : GenerateContentParameters) : M GenerateContentResponse :=
  response <~ fetch (chat_completions self (request_body self request None)) ;;
  if negb (ok response) then throw (api_error response)
  else
    d <~ lift (JSON_parse (response_text response)) ;;
    lift (convertOpenAIResponseToGemini d).

(** *** [generateContentStream]: the generator *)

Definition DONE : jsstring := lit "data: [DONE]".
Definition data_prefix : jsstring := lit "data: ".

(** The body of the [try] block for one trimmed line that starts with the
    prefix: [Normal (Some r)] when [r] is yielded, [Normal None] when the
    block ends without a yield, [Throw] when [JSON.parse] or a property read
    throws. *)
Definition try_frame (trimmed : jsstring)
  : completion (option GenerateContentResponse) :=
  d <- JSON_parse (slice 6 trimmed) ;;
  choices <- get d P_choices ;;
  choice <- get choices P_0 ;;
  delta <- get_optional choice P_delta ;;
  content <- get_optional delta P_content ;;
  if ToBoolean content then
    choices' <- get d P_choices ;;
    choice' <- get choices' P_0 ;;
    finish_reason <- get_optional choice' P_finish_reason ;;
    Normal (Some (mkGenerateContentResponse
                    [mkCandidate (mkCandidateContent [content] (lit "model"))
                                 (logical_or finish_reason JUndefined) None]
                    content
                    None))
  else Normal None.

(** [try { ... } catch (e) { }]: what the line yields, if anything. *)
Definition frame (trimmed : jsstring) : option GenerateContentResponse :=
  match try_frame trimmed with
  | Normal (Some r) => Some r
  | Normal None => None
  | Throw _ => None
  end.

(** [for (const line of lines)]: the responses yielded, and whether the
    loop was left by [return]. *)
Fixpoint for_lines (lines : list jsstring)
  : list GenerateContentResponse * bool :=
  match lines with
  | [] => ([], false)
  | line :: rest =>
      let trimmed := trim line in
      match trimmed with
      | [] => for_lines rest
      | _ :: _ =>
          if jsstring_eqb trimmed DONE then ([], true)
          else if startsWith trimmed data_prefix then
            match frame trimmed with
            | Some r => let (out, returned) := for_lines rest in (r :: out, returned)
            | None => for_lines rest
            end
          else for_lines rest
      end
  end.

(** How the generator ended: the loop was left by [break] when the reader
    reported [done], by [return] on the termination frame, or [read]
    rejected and the error went through [finally] to the consumer. *)
Inductive Outcome : Type :=
| Completed
| Returned
| Failed (e : exn).

(** A generator drained by its consumer: everything it yielded, how it
    ended, how often it called [reader.read()] and how often
    [reader.releaseLock()]. *)
Record StreamRun : Type := mkRun {
  yielded : list GenerateContentResponse;
  outcome : Outcome;
  reads : nat;
  released : nat
}.

(** [while (true)] with its state, the decoder and the buffer. *)
Fixpoint read_loop (reader : list ReadResult) (decoder : TextDecoder)
  (buffer : jsstring) : StreamRun :=
  match reader with
  | [] => mkRun [] Completed 1 1
  | ReadRejected e :: _ => mkRun [] (Failed e) 1 1
  | ReadValue value :: reader' =>
      let (decoder', decoded) := decode decoder value in
      let buffer1 := buffer ++ decoded in
      let (lines, last_line) := pop (split_LF buffer1) in
      let buffer2 :=
        match last_line with
        | Some (c :: s) => c :: s
        | Some [] | None => []
        end in
      let (out, returned) := for_lines lines in
      if returned then mkRun out Returned 1 1
      else
        let r := read_loop reader' decoder' buffer2 in
        mkRun (out ++ yielded r) (outcome r) (S (reads r)) (released r)
  end.

Definition generator (reader : list ReadResult) : StreamRun :=
  read_loop reader new_TextDecoder [].

(** *** The generator as its consumer drives it

    The generator object starts nothing when it is made.  Its body runs
    when the consumer calls [next], from the start or from the [yield]
    where it last stopped, up to the next [yield] or to its end.  The
    reader and its lock exist before, from [getReader()]. *)

(** Where the generator stands between two calls: not started yet,
    suspended at the [yield] with the rest of [lines] still to loop over,
    or closed. *)
Inductive GeneratorState : Type :=
| SuspendedStart (reader : list ReadResult)
| SuspendedYield (pending : list jsstring) (reader : list ReadResult)
    (decoder : TextDecoder) (buffer : jsstring)
| Closed.

(** What a call resolves to: [{ value, done: false }], [{ done: true }],
    or a rejection. *)
Inductive IteratorResult : Type :=
| IterValue (r : GenerateContentResponse)
| IterDone
| IterRejected (e : exn).

(** A call on the generator: its result, the state it leaves, and the
    calls of [reader.read()] and of [reader.releaseLock()] made in it. *)
Record Resumption : Type := mkResumption {
  iter_result : IteratorResult;
  iter_state : GeneratorState;
  iter_reads : nat;
  iter_releases : nat
}.

(** [for (const line of lines)] up to the first [yield] or [return]. *)
Inductive LineScan : Type :=
| ScanYield (r : GenerateContentResponse) (rest : list jsstring)
| ScanReturn
| ScanEnd.

Fixpoint scan_lines (lines : list jsstring) : LineScan :=
  match lines with
  | [] => ScanEnd
  | line :: rest =>
      let trimmed := trim line in
      match trimmed with
      | [] => scan_lines rest
      | _ :: _ =>
          if jsstring_eqb trimmed DONE then ScanReturn
          else if startsWith trimmed data_prefix then
            match frame trimmed with
            | Some r => ScanYield r rest
            | None => scan_lines rest
            end
          else scan_lines rest
      end
  end.

(** [while (true)] up to the first [yield] or to the end of the body; on
    the way out the [finally] block releases the lock. *)
Fixpoint resume_reading (reader : list ReadResult) (decoder : TextDecoder)
  (buffer : jsstring) : Resumption :=
  match reader with
  | [] => mkResumption IterDone Closed 1 1
  | ReadRejected e :: _ => mkResumption (IterRejected e) Closed 1 1
  | ReadValue value :: reader' =>
      let (decoder', decoded) := decode decoder value in
      let buffer1 := buffer ++ decoded in
      let (lines, last_line) := pop (split_LF buffer1) in
      let buffer2 :=
        match last_line with
        | Some (c :: s) => c :: s
        | Some [] | None => []
        end in
      match scan_lines lines with
      | ScanYield r rest =>
          mkResumption (IterValue r) (SuspendedYield rest reader' decoder' buffer2) 1 0
      | ScanReturn => mkResumption IterDone Closed 1 1
      | ScanEnd =>
          let k := resume_reading reader' decoder' buffer2 in
          mkResumption (iter_result k) (iter_state k) (S (iter_reads k)) (iter_releases k)
      end
  end.

(** The body resumed after a [yield]. *)
Definition resume_lines (pending : list jsstring) (reader : list ReadResult)
  (decoder : TextDecoder) (buffer : jsstring) : Resumption :=
  match scan_lines pending with
  | ScanYield r rest =>
      mkResumption (IterValue r) (SuspendedYield rest reader decoder buffer) 0 0
  | ScanReturn => mkResumption IterDone Closed 0 1
  | ScanEnd => resume_reading reader decoder buffer
  end.

(** The calls a consumer can make. *)
Inductive Call : Type :=
| call_next
| call_return
| call_throw (e : exn).

(** One call.  Before the start, [return] and [throw] close the generator
    without running any of its body, so without the [finally] block.  At
    the [yield], [return] leaves through the [finally] block; [throw]
    raises its error inside the [try] block around the [yield], whose
    [catch] swallows it, and the loop goes on as for [next].  A closed
    generator does nothing. *)
Definition call (c : Call) (g : GeneratorState) : Resumption :=
  match g, c with
  | SuspendedStart reader, call_next => resume_reading reader new_TextDecoder []
  | SuspendedStart _, call_return => mkResumption IterDone Closed 0 0
  | SuspendedStart _, call_throw e => mkResumption (IterRejected e) Closed 0 0
  | SuspendedYield pending reader decoder buffer, call_next =>
      resume_lines pending reader decoder buffer
  | SuspendedYield _ _ _ _, call_return => mkResumption IterDone Closed 0 1
  | SuspendedYield pending reader decoder buffer, call_throw _ =>
      resume_lines pending reader decoder buffer
  | Closed, call_next => mkResumption IterDone Closed 0 0
  | Closed, call_return => mkResumption IterDone Closed 0 0
  | Closed, call_throw e => mkResumption (IterRejected e) Closed 0 0
  end.

(** A consumer's calls in turn: the results, the state left, and the
    reads and releases made in all. *)
Record Session : Type := mkSession {
  results : list IteratorResult;
  final_state : GeneratorState;
  session_reads : nat;
  session_releases : nat
}.

Fixpoint calls (cs : list Call) (g : GeneratorState) : Session :=
  match cs with
  | [] => mkSession [] g 0 0
  | c :: rest =>
      let k := call c g in
      let s := calls rest (iter_state k) in
      mkSession (iter_result k :: results s) (final_state s)
        (iter_reads k + session_reads s) (iter_releases k + session_releases s)
  end.

(** [for await (const r of generator)]: [next] until the generator is
    done or rejects, at most [fuel] times. *)
Fixpoint for_await (fuel : nat) (g : GeneratorState)
  : list GenerateContentResponse * option IteratorResult * nat * nat :=
  match fuel with
  | O => ([], None, 0%nat, 0%nat)
  | S fuel' =>
      let k := call call_next g in
      match iter_result k with
      | IterValue r =>
          let '(values, last, n, m) := for_await fuel' (iter_state k) in
          (r :: values, last, (iter_reads k + n)%nat, (iter_releases k + m)%nat)
      | last => ([], Some last, iter_reads k, iter_releases k)
      end
  end.

Definition generateContentStream (self : OpenRouterContentGenerator)
  (request : GenerateContentParameters) : M StreamRun :=
  response <~ fetch (chat_completions self (request_body self request (Some true))) ;;
  if negb (ok response) then throw (api_error response)
  else
    match response_body response with
    | None => throw (Error (lit "No response body"))
    | Some reader => ret (generator reader)
    end.

(** *** [countTokens] *)

Record CountTokensParameters : Type := mkCountParameters {
  count_model : jsstring;
  count_contents : ContentListUnion
}.

Record CountTokensResponse : Type := mkCount { totalTokens : Z }.

Definition is_nonempty (s : jsstring) : bool :=
  match s with
  | [] => false
  | _ :: _ => true
  end.

Definition text_in_part (p : Part) : jsstring :=
  match text p with
  | Some t => t
  | None => []
  end.

(** [Math.ceil(n / 4)] for a length [n]: the quotient is exact in a double
    for every length a string can have. *)
Definition Math_ceil_quarter (n : nat) : Z :=
  Qceiling (inject_Z (Z.of_nat n) / 4).

Definition countTokens (request : CountTokensParameters)
  : M CountTokensResponse :=
  let t :=
    match count_contents request with
    | contents_string s => s
    | contents_array l =>
        join (map (fun c =>
                     let ps := match parts c with Some l' => l' | None => [] end in
                     join (filter is_nonempty (map text_in_part ps)))
                  l)
    | contents_content _ | contents_part _ | contents_undefined => []
    end in
  ret (mkCount (Math_ceil_quarter (List.length t))).

(** *** [embedContent] *)

Definition embedContent {Request Response : Type} (request : Request) : M Response :=
  throw (Error (lit "Embed content not supported via OpenRouter yet.")).


(** * Vocabulary of the properties *)

(** ** Parsers *)

(** Each parser leaves less than it was given. *)
Definition consumes {A} (parser : jsstring -> option (A * jsstring)) : Prop :=
  forall s a r, parser s = Some (a, r) -> (List.length r < List.length s)%nat.

(** Two parsers that agree on every text shorter than [n]. *)
Definition agree_below {A} (n : nat) (p q : jsstring -> option (A * jsstring)) : Prop :=
  forall s, (List.length s < n)%nat -> p s = q s.

(** ** Lines, decoded text and runs *)

(** The complete lines of a text and the unfinished line after them: what
    [split] and [pop] leave in [lines] and in [buffer]. *)
Definition complete_lines (s : jsstring) : list jsstring :=
  removelast (split_LF s).

Definition partial_line (s : jsstring) : jsstring :=
  last (split_LF s) [].

Definition decode_state (d : TextDecoder) (value : list Byte.byte) : TextDecoder :=
  fst (decode d value).

Definition decode_text (d : TextDecoder) (value : list Byte.byte) : jsstring :=
  snd (decode d value).

(** The text of a whole response body. *)
Definition decoded (bytes : list Byte.byte) : jsstring :=
  decode_text new_TextDecoder bytes.

(** All the complete lines a run of successful reads brings, from a buffer
    [buffer] and a decoder [d]. *)
Definition lines_read (d : TextDecoder) (buffer : jsstring)
  (values : list (list Byte.byte)) : list jsstring :=
  complete_lines (buffer ++ decode_text d (List.concat values)).

(** A run that comes after [k] reads which yielded [out]. *)
Definition after_reads (out : list GenerateContentResponse) (k : nat)
  (r : StreamRun) : StreamRun :=
  mkRun (out ++ yielded r) (outcome r) (k + reads r) (released r).

(** A line whose turn through the loop body yields nothing and does not
    return: an empty line, a line without the prefix, or a frame that
    yields nothing. *)
Definition silent (line : jsstring) : Prop :=
  trim line <> DONE /\
  (startsWith (trim line) data_prefix = true -> frame (trim line) = None).

(** What holds of the decoder inside a sequence: the bits gathered so far
    are not all zero, or the next byte is confined to a range that makes
    them so. *)
Definition sound (d : TextDecoder) : bool :=
  (bytes_needed d =? 0)
  || negb (code_point d =? 0)
  || ((144 <=? lower_boundary d) && (upper_boundary d <=? 191)).

Definition LF_free (s : list N) : bool := forallb (fun c => negb (c =? LF)) s.

(** ** Shapes of a payload *)

(** [data.choices[0]?.delta?.content] *)
Definition delta_content (d : jsval) : completion jsval :=
  choices <- get d P_choices ;;
  choice <- get choices P_0 ;;
  delta <- get_optional choice P_delta ;;
  get_optional delta P_content.

(** The payload has nothing to index under [choices]: the member is
    missing, or it holds [null], a boolean, a number or a string, or the
    payload is itself [null]. *)
Definition lacks_choices (d : jsval) : Prop :=
  match get d P_choices with
  | Normal (JArray _) | Normal (JObject _) => False
  | Normal _ | Throw _ => True
  end.

(** ** Text of the contents *)

(** In the words of the specification: the concatenation, in order, of the
    text parts of a turn; a part without text contributes nothing. *)
Fixpoint concatenated_text (ps : list Part) : jsstring :=
  match ps with
  | [] => []
  | p :: rest =>
      match text p with
      | Some t => t ++ concatenated_text rest
      | None => concatenated_text rest
      end
  end.

Definition turn_text (turn : Content) : jsstring :=
  match parts turn with
  | Some ps => concatenated_text ps
  | None => []
  end.

(** In the words of the specification: all the text parts of the content,
    concatenated. *)
Definition all_text (c : ContentListUnion) : jsstring :=
  match c with
  | contents_string s => s
  | contents_array turns => List.concat (map turn_text turns)
  | contents_content _ | contents_part _ | contents_undefined => []
  end.

(** ** Test data *)

(** JSON texts are written with apostrophes where JSON has double quotes;
    [json] puts the double quotes back. *)
Fixpoint json (s : string) : string :=
  match s with
  | EmptyString => EmptyString
  | String c r =>
      String (if Ascii.eqb c "'"%char then ascii_of_nat 34 else c) (json r)
  end.

(** The bytes of a line with its line feed. *)
Definition line_bytes (s : string) : list Byte.byte :=
  list_byte_of_string s ++ [Byte.x0a].

Definition frame_Hi : string :=
  json "data: {'choices':[{'delta':{'content':'Hi'}}]}".

Definition frame_there : string :=
  json "data: {'choices':[{'delta':{'content':' there'},'finish_reason':'stop'}]}".

(** What a frame with delta text [t] and finish reason [f] yields. *)
Definition partial_response (t : string) (f : jsval) : GenerateContentResponse :=
  mkGenerateContentResponse
    [mkCandidate (mkCandidateContent [JString (lit t)] (lit "model")) f None]
    (JString (lit t)) None.

Definition valid_frame_line : jsstring := lit frame_Hi.

Definition choices_object_line : jsstring :=
  lit (json "data: {'choices':{'0':{'delta':{'content':'x'}}}}").

Definition text_part (t : string) : Part := mkPart (Some (lit t)) None.

Definition system_turn : Content :=
  mkContent (Some (lit "system")) (Some [text_part "Be brief."]).

(** An answer the provider sends with a success status when it cannot
    serve the request. *)
Definition error_answer : jsstring :=
  lit (json "{'error':{'message':'No endpoints found','code':404}}").

Definition answering (text : jsstring) : World :=
  mkWorld (fun _ => Normal (mkResponse true 200 (lit "OK") text None)) [].

(** ** The decoder in closed form *)

(** A line that, trimmed, is the termination frame. *)
Definition is_termination_frame (line : jsstring) : bool :=
  jsstring_eqb (trim line) DONE.

(** What one line contributes when the loop reaches it and it is not the
    termination frame. *)
Definition frame_of_line (line : jsstring) : option GenerateContentResponse :=
  if startsWith (trim line) data_prefix then frame (trim line) else None.

(** The lines before the first termination frame. *)
Fixpoint before_termination (lines : list jsstring) : list jsstring :=
  match lines with
  | [] => []
  | line :: rest =>
      if is_termination_frame line then [] else line :: before_termination rest
  end.

Definition responses_of (lines : list jsstring) : list GenerateContentResponse :=
  flat_map (fun line => match frame_of_line line with
                        | Some r => [r]
                        | None => []
                        end) lines.

(** The shape of everything the generator yields: one candidate of role
    [model] whose one part is the text, a text that is truthy, and a finish
    reason that is [undefined] or truthy. *)
Definition partial_shape (r : GenerateContentResponse) : Prop :=
  exists content finish,
    r = mkGenerateContentResponse
          [mkCandidate (mkCandidateContent [content] (lit "model")) finish None]
          content None
    /\ ToBoolean content = true
    /\ (finish = JUndefined \/ ToBoolean finish = true).

(** ** Worlds and answers *)

(** A world whose transport gives the same answer to every request. *)
Definition answering_with (response : FetchResponse) : World :=
  mkWorld (fun _ => Normal response) [].

(** [undefined] and [null], the values whose properties cannot be read. *)
Definition nullish (v : jsval) : bool :=
  match v with
  | JUndefined | JNull => true
  | _ => false
  end.

(** The answer [d] has nothing the translator can index: it is itself
    [null], or its [choices] is missing or [null]. *)
Definition without_choices (d : jsval) : Prop :=
  match get d P_choices with
  | Normal choices => nullish choices = true
  | Throw _ => True
  end.

(** The shape of what the translator returns for the answer [d]: one
    candidate, of role [model] and index 0, whose one part is the text; a
    text that is truthy or the empty string; no function calls; the answer
    itself kept. *)
Definition answer_shape (d : jsval) (r : GenerateContentResponse) : Prop :=
  exists content finish,
    r = mkGenerateContentResponse
          [mkCandidate (mkCandidateContent [content] (lit "model")) finish (Some 0)]
          content
          (Some (mkExtras [] JUndefined JUndefined d))
    /\ (content = JString [] \/ ToBoolean content = true).

(** ** Messages and tokens *)

(** The characters sent to the provider for some contents: the contents of
    the messages the request translator makes of them. *)
Definition characters_sent (c : ContentListUnion) : nat :=
  List.length (List.concat (map message_content (convertContentsToMessages c))).

(** ** Line feeds and line endings *)

(** What holds of the decoder after any byte: inside a sequence, the next
    byte is taken for a continuation only from [0x80] on. *)
Definition steady (d : TextDecoder) : bool :=
  (bytes_needed d =? 0) || (128 <=? lower_boundary d).

Definition count_LF (s : jsstring) : nat :=
  List.length (filter (fun c => c =? LF) s).

(** The line feed bytes in the chunks a reader holds. *)
Fixpoint line_feeds (reader : list ReadResult) : nat :=
  match reader with
  | [] => 0
  | ReadValue value :: rest =>
      List.length (filter (Byte.eqb Byte.x0a) value) + line_feeds rest
  | ReadRejected _ :: rest => line_feeds rest
  end.

(** The body made of the lines [ls], each closed by [ending]. *)
Definition lines_with (ending : list Byte.byte) (ls : list (list Byte.byte))
  : list Byte.byte :=
  List.concat (map (fun l => l ++ ending) ls).

Definition CR : code_unit := 13.

(** [data.choices[0]?.finish_reason] *)
Definition first_finish_reason (d : jsval) : completion jsval :=
  choices <- get d P_choices ;;
  choice <- get choices P_0 ;;
  get_optional choice P_finish_reason.

(** ** The generator between two calls *)

(** The drained run of the rest of the body, from a [yield] on. *)
Definition run_from (pending : list jsstring) (reader : list ReadResult)
  (decoder : TextDecoder) (buffer : jsstring) : StreamRun :=
  if snd (for_lines pending)
  then mkRun (fst (for_lines pending)) Returned 0 1
  else after_reads (fst (for_lines pending)) 0 (read_loop reader decoder buffer).

(** What is left of the drained run in a state of the generator. *)
Definition run_of (g : GeneratorState) : StreamRun :=
  match g with
  | SuspendedStart reader => generator reader
  | SuspendedYield pending reader decoder buffer =>
      run_from pending reader decoder buffer
  | Closed => mkRun [] Completed 0 0
  end.

(** The result of the call that ends a run. *)
Definition last_result (o : Outcome) : IteratorResult :=
  match o with
  | Completed | Returned => IterDone
  | Failed e => IterRejected e
  end.

Definition is_closed (g : GeneratorState) : bool :=
  match g with
  | Closed => true
  | _ => false
  end.

(** The release still to come from a generator suspended inside its
    [try] block. *)
Definition owed (g : GeneratorState) : nat :=
  match g with
  | SuspendedYield _ _ _ _ => 1
  | SuspendedStart _ | Closed => 0
  end.

(** The reads a generator can still make. *)
Definition reads_left (g : GeneratorState) : nat :=
  match g with
  | SuspendedStart reader => S (List.length reader)
  | SuspendedYield _ reader _ _ => S (List.length reader)
  | Closed => 0
  end.

(** A call of [next] takes the head off the drained run: the value it
    gives is the first the run yields, and the run goes on from the state
    it leaves; or the run yields nothing more and the call ends it. *)
Definition unfolds (k : Resumption) (R : StreamRun) : Prop :=
  match iter_result k with
  | IterValue r =>
      yielded R = r :: yielded (run_of (iter_state k))
      /\ outcome R = outcome (run_of (iter_state k))
      /\ reads R = (iter_reads k + reads (run_of (iter_state k)))%nat
      /\ released R = (iter_releases k + released (run_of (iter_state k)))%nat
      /\ is_closed (iter_state k) = false
  | last =>
      yielded R = []
      /\ last = last_result (outcome R)
      /\ reads R = iter_reads k
      /\ released R = iter_releases k
  end.


(** A frame that arrives in two chunks, and a second frame behind it. *)
Definition three_chunks : list ReadResult :=
  map ReadValue
    [list_byte_of_string "data: {"%string;
     line_bytes (json "'choices':[{'delta':{'content':'Hi'}}]}");
     line_bytes frame_there].

(** * Properties *)

(** ** The fuel of [JSON_parse] is enough *)

Lemma skip_whitespace_length (s : jsstring) :
  (List.length (skip_whitespace s) <= List.length s)%nat.
Proof.
  induction s as [|c r IH]; simpl; [lia|].
  destruct (is_json_whitespace c); simpl; lia.
Qed.

Lemma skip_whitespace_cons (s r : jsstring) (c : code_unit) :
  skip_whitespace s = c :: r -> (List.length r < List.length s)%nat.
Proof.
  intros H. pose proof (skip_whitespace_length s) as Hl.
  rewrite H in Hl. simpl in Hl. lia.
Qed.

Lemma push_length {A} (c : A) (o : option (list A * jsstring)) l r :
  push c o = Some (l, r) -> exists l', o = Some (l', r).
Proof.
  destruct o as [[l' r']|]; simpl; [|discriminate].
  intros H. injection H as _ <-. now exists l'.
Qed.

Lemma string_body_length (s : jsstring) :
  forall str r, string_body s = Some (str, r) -> (List.length r < List.length s)%nat.
Proof.
  induction s as [s IH] using (well_founded_induction
    (Wf_nat.well_founded_ltof _ (@List.length code_unit))).
  unfold Wf_nat.ltof in IH.
  intros str r H. destruct s as [|c s]; [discriminate|].
  assert (Hrec : forall t l, (List.length t <= List.length s)%nat ->
            forall x, push x (string_body t) = Some (l, r) ->
            (List.length r < List.length (c :: s))%nat).
  { intros t l Ht x Hx. apply push_length in Hx as [l' Hx].
    apply IH in Hx; simpl in *; lia. }
  simpl in H.
  repeat match type of H with
  | Some _ = Some _ => injection H as <- <-; simpl; lia
  | None = Some _ => discriminate H
  | push _ (string_body ?t) = Some _ => apply Hrec in H; [exact H|simpl; lia]
  | context [match ?x with _ => _ end] => destruct x; simpl in *
  | context [if ?b then _ else _] => destruct b
  end.
Qed.

Lemma digits_length (s : jsstring) :
  (List.length (snd (digits s)) <= List.length s)%nat.
Proof.
  induction s as [|c r IH]; simpl; [lia|].
  destruct (is_digit c); simpl; [|lia].
  destruct (digits r); simpl in *. lia.
Qed.

Lemma digits_nonempty_length (s : jsstring) d ds rest :
  digits s = (d :: ds, rest) -> (List.length rest < List.length s)%nat.
Proof.
  destruct s as [|c r]; simpl; [discriminate|].
  destruct (is_digit c); [|discriminate].
  pose proof (digits_length r) as Hl. destruct (digits r) as [ds' rest'].
  intros H. injection H as _ _ <-. simpl in *. lia.
Qed.

Lemma integer_part_length (s : jsstring) ds r :
  integer_part s = Some (ds, r) -> (List.length r < List.length s)%nat.
Proof.
  unfold integer_part. destruct s as [|c s']; [discriminate|].
  assert (Hd : (if is_digit c then Some (digits (c :: s')) else None) = Some (ds, r)
               -> (List.length r < List.length (c :: s'))%nat).
  { destruct (is_digit c) eqn:Hc; [|discriminate]. intros H. injection H as H.
    simpl in H. rewrite Hc in H. pose proof (digits_length s') as Hl.
    destruct (digits s') as [ds' r']. injection H as _ <-. simpl in *. lia. }
  destruct c as [|p]; [exact Hd|].
  do 6 (destruct p as [p|p|]; try exact Hd).
  intros H. injection H as _ <-. simpl. lia.
Qed.

Lemma fraction_part_length (s : jsstring) ds r :
  fraction_part s = Some (ds, r) -> (List.length r <= List.length s)%nat.
Proof.
  unfold fraction_part. intros H.
  assert (Hs : Some ([] : list N, s) = Some (ds, r) -> (List.length r <= List.length s)%nat)
    by (intros E; injection E as _ <-; lia).
  destruct s as [|c s']; [now apply Hs|].
  destruct (N.eq_dec c 46) as [->|Hc].
  - destruct (digits s') as [[|d ds'] rest] eqn:Hd; [discriminate|].
    injection H as _ <-. apply digits_nonempty_length in Hd. simpl. lia.
  - apply Hs. rewrite <- H. destruct c as [|p]; [reflexivity|].
    do 6 (destruct p as [p|p|]; try reflexivity). contradiction.
Qed.

Lemma exponent_digits_length (minus : bool) (s : jsstring) e r :
  exponent_digits minus s = Some (e, r) -> (List.length r < List.length s)%nat.
Proof.
  unfold exponent_digits. destruct (digits s) as [[|d ds] rest] eqn:Hd; [discriminate|].
  intros H. injection H as _ <-. now apply digits_nonempty_length in Hd.
Qed.

Lemma exponent_part_length (s : jsstring) e r :
  exponent_part s = Some (e, r) -> (List.length r <= List.length s)%nat.
Proof.
  unfold exponent_part. intros H.
  assert (Hs : Some (0%Z, s) = Some (e, r) -> (List.length r <= List.length s)%nat)
    by (intros E; injection E as _ <-; lia).
  assert (He : forall t, (List.length t < List.length s)%nat ->
            match t with
            | 45 :: u => exponent_digits true u
            | 43 :: u => exponent_digits false u
            | _ => exponent_digits false t
            end = Some (e, r) -> (List.length r <= List.length s)%nat).
  { intros t Ht Ev.
    assert (Hx : forall m u, (List.length u <= List.length t)%nat ->
              exponent_digits m u = Some (e, r) -> (List.length r <= List.length s)%nat)
      by (intros m u Hu Eu; apply exponent_digits_length in Eu; lia).
    destruct t as [|c t']; [now apply (Hx false [])|].
    destruct c as [|p]; [now apply (Hx false (0 :: t'))|].
    do 6 (destruct p as [p|p|]; try (now apply (Hx false) in Ev));
      apply (Hx _ t') in Ev; simpl; (exact Ev || lia). }
  destruct s as [|c s']; [now apply Hs|].
  destruct c as [|p]; [now apply Hs|].
  do 7 (destruct p as [p|p|]; try (now apply Hs));
    apply (He s'); simpl; (exact H || lia).
Qed.

Lemma number_literal_length (s : jsstring) v r :
  number_literal s = Some (v, r) -> (List.length r < List.length s)%nat.
Proof.
  unfold number_literal.
  assert (Hsign : (List.length (snd (sign_part s)) <= List.length s)%nat).
  { unfold sign_part. destruct s as [|c s']; [simpl; lia|].
    destruct c as [|p]; [simpl; lia|].
    do 6 (destruct p as [p|p|]; try (simpl; lia)). }
  destruct (sign_part s) as [negative s1]. simpl in Hsign.
  destruct (integer_part s1) as [[int_digits s2]|] eqn:Hi; [|discriminate].
  destruct (fraction_part s2) as [[frac_digits s3]|] eqn:Hf; [|discriminate].
  destruct (exponent_part s3) as [[e s4]|] eqn:He; [|discriminate].
  intros H. injection H as _ <-.
  apply integer_part_length in Hi. apply fraction_part_length in Hf.
  apply exponent_part_length in He. lia.
Qed.

Lemma keyword_length (word : string) (k : jsval) (s : jsstring) v r :
  word <> EmptyString ->
  keyword word k s = Some (v, r) -> (List.length r < List.length s)%nat.
Proof.
  intros Hw. unfold keyword. destruct (startsWith s (lit word)) eqn:Hs; [|discriminate].
  intros H. injection H as _ <-.
  destruct word as [|a w]; [contradiction|].
  destruct s as [|c s']; [discriminate|].
  change (lit (String a w)) with (N_of_ascii a :: lit w).
  rewrite length_skipn. cbn [List.length]. lia.
Qed.

Lemma closes_length (c : code_unit) (s r : jsstring) :
  closes c s = Some r -> (List.length r < List.length s)%nat.
Proof.
  unfold closes. destruct (skip_whitespace s) as [|x t] eqn:Hs; [discriminate|].
  destruct (x =? c); [|discriminate]. intros H. injection H as <-.
  now apply skip_whitespace_cons in Hs.
Qed.

Lemma push_consumes {A} (x : A) (o : option (list A * jsstring)) l r (n : nat) :
  push x o = Some (l, r) ->
  (forall l', o = Some (l', r) -> (List.length r < n)%nat) ->
  (List.length r < n)%nat.
Proof. intros H Hn. apply push_length in H as [l' H]. now apply (Hn l'). Qed.

Lemma value_step_consumes elements members :
  consumes elements -> consumes members -> consumes (value_step elements members).
Proof.
  intros He Hm s v r. unfold value_step.
  destruct (skip_whitespace s) as [|c t] eqn:Hs; [discriminate|].
  pose proof (skip_whitespace_cons _ _ _ Hs) as Ht.
  pose proof (skip_whitespace_length s) as Hl. rewrite Hs in Hl.
  destruct (c =? 123).
  { destruct (closes 125 t) as [r'|] eqn:Hc.
    - intros H. injection H as _ <-. apply closes_length in Hc. lia.
    - destruct (members t) as [[ms r']|] eqn:Hms; [|discriminate].
      intros H. injection H as _ <-. apply Hm in Hms. lia. }
  destruct (c =? 91).
  { destruct (closes 93 t) as [r'|] eqn:Hc.
    - intros H. injection H as _ <-. apply closes_length in Hc. lia.
    - destruct (elements t) as [[vs r']|] eqn:Hvs; [|discriminate].
      intros H. injection H as _ <-. apply He in Hvs. lia. }
  destruct (c =? 34).
  { destruct (string_body t) as [[str r']|] eqn:Hb; [|discriminate].
    intros H. injection H as _ <-. apply string_body_length in Hb. lia. }
  destruct (c =? 116);
    [intros H; apply keyword_length in H; [lia|discriminate]|].
  destruct (c =? 102);
    [intros H; apply keyword_length in H; [lia|discriminate]|].
  destruct (c =? 110);
    [intros H; apply keyword_length in H; [lia|discriminate]|].
  intros H. apply number_literal_length in H. lia.
Qed.

Lemma elements_step_consumes value elements :
  consumes value -> consumes elements -> consumes (elements_step value elements).
Proof.
  intros Hv He s vs r. unfold elements_step.
  destruct (value s) as [[v t]|] eqn:Hval; [|discriminate].
  apply Hv in Hval.
  destruct (skip_whitespace t) as [|c t'] eqn:Hs; [discriminate|].
  apply skip_whitespace_cons in Hs.
  destruct (c =? 44).
  - intros H. apply push_length in H as [l' H]. apply He in H. lia.
  - destruct (c =? 93); [|discriminate]. intros H. injection H as _ <-. lia.
Qed.

Lemma members_step_consumes value members :
  consumes value -> consumes members -> consumes (members_step value members).
Proof.
  intros Hv Hm s ms r. unfold members_step.
  destruct (closes 34 s) as [t|] eqn:Hq; [|discriminate].
  apply closes_length in Hq.
  destruct (string_body t) as [[name t1]|] eqn:Hb; [|discriminate].
  apply string_body_length in Hb.
  destruct (closes 58 t1) as [t2|] eqn:Hc; [|discriminate].
  apply closes_length in Hc.
  destruct (value t2) as [[v t3]|] eqn:Hval; [|discriminate].
  apply Hv in Hval.
  destruct (skip_whitespace t3) as [|c t4] eqn:Hs; [discriminate|].
  apply skip_whitespace_cons in Hs.
  destruct (c =? 44).
  - intros H. apply push_length in H as [l' H]. apply Hm in H. lia.
  - destruct (c =? 125); [|discriminate]. intros H. injection H as _ <-. lia.
Qed.

Lemma parse_consumes (fuel : nat) :
  consumes (parse_value fuel) /\ consumes (parse_elements fuel)
  /\ consumes (parse_members fuel).
Proof.
  induction fuel as [|fuel (Hv & He & Hm)].
  - repeat split; intros s a r H; discriminate H.
  - repeat split.
    + now apply value_step_consumes.
    + now apply elements_step_consumes.
    + now apply members_step_consumes.
Qed.

Lemma value_step_agree elements elements' members members' (s : jsstring) :
  agree_below (List.length s) elements elements' ->
  agree_below (List.length s) members members' ->
  value_step elements members s = value_step elements' members' s.
Proof.
  intros He Hm. unfold value_step.
  destruct (skip_whitespace s) as [|c t] eqn:Hs; [reflexivity|].
  apply skip_whitespace_cons in Hs.
  now rewrite (He t Hs), (Hm t Hs).
Qed.

Lemma elements_step_agree value value' elements elements' (s : jsstring) :
  consumes value ->
  value s = value' s ->
  agree_below (List.length s - 1) elements elements' ->
  elements_step value elements s = elements_step value' elements' s.
Proof.
  intros Hc Hv He. unfold elements_step. rewrite <- Hv.
  destruct (value s) as [[v t]|] eqn:Hval; [|reflexivity].
  apply Hc in Hval.
  destruct (skip_whitespace t) as [|c t'] eqn:Hs; [reflexivity|].
  apply skip_whitespace_cons in Hs.
  rewrite (He t') by lia. reflexivity.
Qed.

Lemma members_step_agree value value' members members' (s : jsstring) :
  consumes value ->
  agree_below (List.length s) value value' ->
  agree_below (List.length s - 1) members members' ->
  members_step value members s = members_step value' members' s.
Proof.
  intros Hc Hv Hm. unfold members_step.
  destruct (closes 34 s) as [t|] eqn:Hq; [|reflexivity].
  apply closes_length in Hq.
  destruct (string_body t) as [[name t1]|] eqn:Hb; [|reflexivity].
  apply string_body_length in Hb.
  destruct (closes 58 t1) as [t2|] eqn:Hcl; [|reflexivity].
  apply closes_length in Hcl.
  rewrite <- (Hv t2) by lia.
  destruct (value t2) as [[v t3]|] eqn:Hval; [|reflexivity].
  apply Hc in Hval.
  destruct (skip_whitespace t3) as [|c t4] eqn:Hs; [reflexivity|].
  apply skip_whitespace_cons in Hs.
  rewrite (Hm t4) by lia. reflexivity.
Qed.

(** More fuel than [2 * length + 1] for a value, or [2 * length + 2] for
    elements or members, changes nothing. *)
Lemma parse_fuel_enough (fuel : nat) :
  (forall s, (2 * List.length s + 1 <= fuel)%nat ->
     parse_value fuel s = parse_value (S fuel) s)
  /\ (forall s, (2 * List.length s + 2 <= fuel)%nat ->
        parse_elements fuel s = parse_elements (S fuel) s)
  /\ (forall s, (2 * List.length s + 2 <= fuel)%nat ->
        parse_members fuel s = parse_members (S fuel) s).
Proof.
  induction fuel as [|fuel (Hv & He & Hm)].
  - repeat split; intros s Hs; lia.
  - destruct (parse_consumes fuel) as (Cv & _ & _).
    repeat split; intros s Hs.
    + change (value_step (parse_elements fuel) (parse_members fuel) s
              = value_step (parse_elements (S fuel)) (parse_members (S fuel)) s).
      apply value_step_agree; intros t Ht; [apply He|apply Hm]; lia.
    + change (elements_step (parse_value fuel) (parse_elements fuel) s
              = elements_step (parse_value (S fuel)) (parse_elements (S fuel)) s).
      apply elements_step_agree; [exact Cv|apply Hv; lia|].
      intros t Ht. apply He. lia.
    + change (members_step (parse_value fuel) (parse_members fuel) s
              = members_step (parse_value (S fuel)) (parse_members (S fuel)) s).
      apply members_step_agree; [exact Cv| |]; intros t Ht; [apply Hv|apply Hm]; lia.
Qed.

(** [JSON_parse] never fails for want of fuel: with any larger fuel the
    answer is the same. *)
Lemma JSON_parse_fuel (text : jsstring) (extra : nat) :
  parse_value (2 * List.length text + 2 + extra) text
  = parse_value (2 * List.length text + 2) text.
Proof.
  induction extra as [|extra IH]; [now rewrite Nat.add_0_r|].
  rewrite Nat.add_succ_r, <- IH.
  symmetry. apply (parse_fuel_enough _). lia.
Qed.

(** ** Lines and the buffer *)

Lemma split_LF_nonempty (s : jsstring) : split_LF s <> [].
Proof.
  destruct s as [|c r]; simpl; [discriminate|].
  destruct (c =? LF); [discriminate|].
  destruct (split_LF r); discriminate.
Qed.

Lemma pop_removelast_last {A} (l : list A) (d : A) :
  l <> [] -> pop l = (removelast l, Some (last l d)).
Proof.
  intros Hl. destruct (exists_last Hl) as [l' [x ->]].
  unfold pop. rewrite rev_app_distr. simpl.
  now rewrite rev_involutive, removelast_last, last_last.
Qed.

Lemma last_app_nonempty {A} (l l' : list A) (d : A) :
  l' <> [] -> last (l ++ l') d = last l' d.
Proof.
  intros Hl'. destruct (exists_last Hl') as [m [x ->]].
  now rewrite app_assoc, !last_last.
Qed.

Lemma pop_split_LF (s : jsstring) :
  pop (split_LF s) = (complete_lines s, Some (partial_line s)).
Proof. apply pop_removelast_last, split_LF_nonempty. Qed.

Lemma split_LF_app (a b : jsstring) :
  split_LF (a ++ b) = complete_lines a ++ split_LF (partial_line a ++ b).
Proof.
  unfold complete_lines, partial_line.
  induction a as [|c a IH]; [reflexivity|].
  simpl. destruct (c =? LF) eqn:Hc.
  - rewrite IH. pose proof (split_LF_nonempty a) as Hne.
    destruct (split_LF a) as [|h t]; [contradiction|]. reflexivity.
  - rewrite IH. pose proof (split_LF_nonempty a) as Hne.
    destruct (split_LF a) as [|h [|h' t]]; [contradiction| |].
    + simpl. rewrite Hc.
      pose proof (split_LF_nonempty (h ++ b)) as Hne'.
      destruct (split_LF (h ++ b)); [contradiction|reflexivity].
    + reflexivity.
Qed.

Lemma complete_lines_app (a b : jsstring) :
  complete_lines (a ++ b) = complete_lines a ++ complete_lines (partial_line a ++ b).
Proof.
  unfold complete_lines at 1. rewrite split_LF_app.
  apply removelast_app, split_LF_nonempty.
Qed.

Lemma partial_line_app (a b : jsstring) :
  partial_line (a ++ b) = partial_line (partial_line a ++ b).
Proof.
  unfold partial_line at 1. rewrite split_LF_app.
  apply last_app_nonempty, split_LF_nonempty.
Qed.

(** A text without a line feed is a single unfinished line. *)
Lemma split_LF_no_LF (s : jsstring) : ~ In LF s -> split_LF s = [s].
Proof.
  induction s as [|c r IH]; intros Hs; [reflexivity|].
  simpl. destruct (c =? LF) eqn:Hc.
  - apply N.eqb_eq in Hc. exfalso. apply Hs. now left.
  - rewrite IH; [reflexivity|]. intros Hin. apply Hs. now right.
Qed.

Lemma split_LF_pieces (s : jsstring) : Forall (fun p => ~ In LF p) (split_LF s).
Proof.
  induction s as [|c r IH]; simpl.
  - constructor; [intros []|constructor].
  - destruct (c =? LF) eqn:Hc.
    + constructor; [intros []|exact IH].
    + destruct (split_LF r) as [|h t].
      * constructor; [|constructor]. intros [H|[]].
        subst c. now rewrite N.eqb_refl in Hc.
      * inversion IH; subst. constructor; [|assumption].
        intros [H|H]; [|contradiction].
        subst c. now rewrite N.eqb_refl in Hc.
Qed.

Lemma partial_line_no_LF (s : jsstring) : ~ In LF (partial_line s).
Proof.
  unfold partial_line. pose proof (split_LF_pieces s) as H.
  pose proof (split_LF_nonempty s) as Hne.
  rewrite Forall_forall in H. apply H.
  destruct (exists_last Hne) as [l [x ->]].
  rewrite last_last. apply in_or_app. right. now left.
Qed.

Lemma complete_lines_partial_line (s : jsstring) :
  complete_lines (partial_line s) = [].
Proof.
  unfold complete_lines. now rewrite split_LF_no_LF by apply partial_line_no_LF.
Qed.

Lemma partial_line_idempotent (s : jsstring) :
  partial_line (partial_line s) = partial_line s.
Proof.
  unfold partial_line at 1. now rewrite split_LF_no_LF by apply partial_line_no_LF.
Qed.

(** ** The decoder across chunk boundaries *)

Lemma decode_pair (d : TextDecoder) (value : list Byte.byte) :
  decode d value = (decode_state d value, decode_text d value).
Proof. unfold decode_state, decode_text. now destruct (decode d value). Qed.

Lemma decode_app (d : TextDecoder) (a b : list Byte.byte) :
  decode d (a ++ b) =
  (decode_state (decode_state d a) b,
   decode_text d a ++ decode_text (decode_state d a) b).
Proof.
  revert d. induction a as [|x a IH]; intros d.
  - simpl. apply decode_pair.
  - unfold decode_state, decode_text in *. simpl.
    destruct (decode_byte d x) as [d1 out1]. rewrite IH.
    destruct (decode d1 a) as [d2 out2]. simpl.
    now rewrite app_assoc.
Qed.

Lemma decode_state_app (d : TextDecoder) (a b : list Byte.byte) :
  decode_state d (a ++ b) = decode_state (decode_state d a) b.
Proof. unfold decode_state at 1. now rewrite decode_app. Qed.

Lemma decode_text_app (d : TextDecoder) (a b : list Byte.byte) :
  decode_text d (a ++ b) = decode_text d a ++ decode_text (decode_state d a) b.
Proof. unfold decode_text at 1. now rewrite decode_app. Qed.

(** ** The loop over the lines *)

Lemma for_lines_app (l1 l2 : list jsstring) :
  for_lines (l1 ++ l2) =
  if snd (for_lines l1) then (fst (for_lines l1), true)
  else (fst (for_lines l1) ++ fst (for_lines l2), snd (for_lines l2)).
Proof.
  induction l1 as [|line l1 IH]; simpl.
  - now destruct (for_lines l2).
  - destruct (trim line) as [|c t] eqn:Ht; [exact IH|].
    destruct (jsstring_eqb (c :: t) DONE); [reflexivity|].
    destruct (startsWith (c :: t) data_prefix); [|exact IH].
    destruct (frame (c :: t)); [|exact IH].
    rewrite IH. destruct (for_lines l1) as [o1 r1]. simpl.
    now destruct r1.
Qed.

Lemma jsstring_eqb_eq (a b : jsstring) : jsstring_eqb a b = true <-> a = b.
Proof.
  revert b. induction a as [|x a IH]; intros [|y b]; simpl; split;
    try discriminate; try reflexivity.
  - intros H. apply andb_true_iff in H as [Hx Hr].
    apply N.eqb_eq in Hx. apply IH in Hr. now subst.
  - intros H. injection H as -> ->. rewrite N.eqb_refl. now apply IH.
Qed.

Lemma for_lines_DONE (line : jsstring) (rest : list jsstring) :
  trim line = DONE -> for_lines (line :: rest) = ([], true).
Proof. intros H. simpl. now rewrite H. Qed.

Lemma for_lines_silent (line : jsstring) (rest : list jsstring) :
  silent line -> for_lines (line :: rest) = for_lines rest.
Proof.
  intros [Hd Hf]. simpl.
  destruct (trim line) as [|c t] eqn:Ht; [reflexivity|].
  destruct (jsstring_eqb (c :: t) DONE) eqn:He.
  - apply jsstring_eqb_eq in He. contradiction.
  - destruct (startsWith (c :: t) data_prefix); [|reflexivity].
    now rewrite Hf.
Qed.

Lemma for_lines_silent_middle (before after : list jsstring) (line : jsstring) :
  silent line -> for_lines (before ++ line :: after) = for_lines (before ++ after).
Proof.
  intros H. rewrite !for_lines_app, for_lines_silent by exact H. reflexivity.
Qed.

(** ** The read loop *)

Lemma read_loop_value (value : list Byte.byte) (reader : list ReadResult)
  (d : TextDecoder) (buffer : jsstring) :
  read_loop (ReadValue value :: reader) d buffer =
  let buffer1 := buffer ++ decode_text d value in
  if snd (for_lines (complete_lines buffer1))
  then mkRun (fst (for_lines (complete_lines buffer1))) Returned 1 1
  else after_reads (fst (for_lines (complete_lines buffer1))) 1
         (read_loop reader (decode_state d value) (partial_line buffer1)).
Proof.
  simpl. rewrite decode_pair, pop_split_LF.
  destruct (for_lines (complete_lines (buffer ++ decode_text d value)))
    as [out returned].
  simpl. destruct returned; [reflexivity|].
  unfold after_reads. simpl.
  now destruct (partial_line (buffer ++ decode_text d value)).
Qed.

Lemma lines_read_cons (d : TextDecoder) (buffer : jsstring)
  (v : list Byte.byte) (vs : list (list Byte.byte)) :
  lines_read d buffer (v :: vs) =
  complete_lines (buffer ++ decode_text d v)
  ++ lines_read (decode_state d v) (partial_line (buffer ++ decode_text d v)) vs.
Proof.
  unfold lines_read. simpl.
  now rewrite decode_text_app, app_assoc, complete_lines_app.
Qed.

(** While no line returns, the reads go on: the loop after [values] is the
    loop on what follows, with the decoder and the unfinished line that
    [values] leave behind. *)
Lemma read_loop_continues (values : list (list Byte.byte)) :
  forall (rest : list ReadResult) (d : TextDecoder) (buffer : jsstring),
    ~ In LF buffer ->
    snd (for_lines (lines_read d buffer values)) = false ->
    read_loop (map ReadValue values ++ rest) d buffer =
    after_reads (fst (for_lines (lines_read d buffer values))) (List.length values)
      (read_loop rest (decode_state d (List.concat values))
         (partial_line (buffer ++ decode_text d (List.concat values)))).
Proof.
  induction values as [|v vs IH]; intros rest d buffer Hb Hs.
  - unfold lines_read, decode_text, decode_state, partial_line, complete_lines in *.
    simpl in *. rewrite app_nil_r in *.
    rewrite split_LF_no_LF by exact Hb. simpl.
    unfold after_reads. simpl. generalize (read_loop rest d buffer).
    intros [y o r l]. reflexivity.
  - rewrite lines_read_cons in *. rewrite for_lines_app in *.
    change (map ReadValue (v :: vs) ++ rest)
      with (ReadValue v :: (map ReadValue vs ++ rest)).
    rewrite read_loop_value. cbv zeta.
    destruct (snd (for_lines (complete_lines (buffer ++ decode_text d v))));
      [discriminate|].
    simpl in Hs. rewrite IH by (apply partial_line_no_LF || exact Hs).
    simpl List.concat. rewrite decode_state_app, decode_text_app.
    rewrite (app_assoc buffer), (partial_line_app (buffer ++ decode_text d v)).
    unfold after_reads. simpl. now rewrite app_assoc.
Qed.

(** Once a line returns, the generator is over: what was yielded is what
    the lines before it yield, and no read is made past the chunk that
    completed it. *)
Lemma read_loop_returns (values : list (list Byte.byte)) :
  forall (rest : list ReadResult) (d : TextDecoder) (buffer : jsstring),
    ~ In LF buffer ->
    snd (for_lines (lines_read d buffer values)) = true ->
    let r := read_loop (map ReadValue values ++ rest) d buffer in
    yielded r = fst (for_lines (lines_read d buffer values))
    /\ outcome r = Returned
    /\ (reads r <= List.length values)%nat
    /\ released r = 1%nat.
Proof.
  induction values as [|v vs IH]; intros rest d buffer Hb Hs.
  - unfold lines_read, decode_text, complete_lines in Hs. simpl in Hs.
    rewrite app_nil_r, split_LF_no_LF in Hs by exact Hb. discriminate.
  - rewrite lines_read_cons in *. rewrite for_lines_app in *.
    change (map ReadValue (v :: vs) ++ rest)
      with (ReadValue v :: (map ReadValue vs ++ rest)).
    rewrite read_loop_value. cbv zeta.
    destruct (snd (for_lines (complete_lines (buffer ++ decode_text d v)))).
    + simpl. repeat split. lia.
    + simpl in Hs.
      destruct (IH rest (decode_state d v)
                  (partial_line (buffer ++ decode_text d v))
                  (partial_line_no_LF _) Hs) as (Hy & Ho & Hr & Hl).
      simpl. rewrite Hy, Ho, Hl. repeat split. lia.
Qed.

(** What a generator yields over successful reads, and how it ends, in
    terms of the decoded text alone. *)
Lemma generator_values (values : list (list Byte.byte)) :
  let lines := complete_lines (decoded (List.concat values)) in
  let r := generator (map ReadValue values) in
  yielded r = fst (for_lines lines)
  /\ outcome r = (if snd (for_lines lines) then Returned else Completed)
  /\ released r = 1%nat
  /\ (snd (for_lines lines) = false -> reads r = S (List.length values)).
Proof.
  cbv zeta. unfold generator, decoded.
  change (complete_lines (decode_text new_TextDecoder (List.concat values)))
    with (lines_read new_TextDecoder [] values).
  rewrite <- (app_nil_r (map ReadValue values)).
  destruct (snd (for_lines (lines_read new_TextDecoder [] values))) eqn:Hs.
  - destruct (read_loop_returns values [] new_TextDecoder [] (fun H => H) Hs)
      as (Hy & Ho & _ & Hl).
    rewrite Hy, Ho, Hl. repeat split. discriminate.
  - rewrite read_loop_continues by (exact Hs || intros []).
    simpl. rewrite app_nil_r. repeat split. lia.
Qed.

(** A run that the consumer drains ends with the lock released once. *)
Lemma reader_released_once (reader : list ReadResult) :
  forall d buffer, released (read_loop reader d buffer) = 1%nat.
Proof.
  induction reader as [|[value|e] reader IH]; intros d buffer; try reflexivity.
  rewrite read_loop_value. cbv zeta.
  destruct (snd (for_lines _)); [reflexivity|]. apply IH.
Qed.

(** ** The generator on small streams *)

Example decodes_then_terminates :
  generator [ReadValue (line_bytes frame_Hi); ReadValue (line_bytes "data: [DONE]")]
  = mkRun [partial_response "Hi" JUndefined] Returned 2 1.
Proof. vm_compute. reflexivity. Qed.

Example finish_reason_is_carried :
  yielded (generator [ReadValue (line_bytes frame_Hi ++ line_bytes frame_there)])
  = [partial_response "Hi" JUndefined; partial_response " there" (JString (lit "stop"))].
Proof. vm_compute. reflexivity. Qed.

Example read_rejection_reaches_consumer :
  generator [ReadValue (line_bytes frame_Hi); ReadRejected (Error (lit "socket closed"));
             ReadValue (line_bytes frame_there)]
  = mkRun [partial_response "Hi" JUndefined] (Failed (Error (lit "socket closed"))) 2 1.
Proof. vm_compute. reflexivity. Qed.

(** ** The streaming decoder *)

(** C1.  Chunk-boundary independence: however the bytes of a response body
    are cut into successive reads, the generator yields the same responses
    in the same order, and ends the same way, as when all the bytes come in
    one read.  (Reads may even be empty.) *)
Theorem chunk_boundary_independence (chunks : list (list Byte.byte)) :
  let split := generator (map ReadValue chunks) in
  let whole := generator [ReadValue (List.concat chunks)] in
  yielded split = yielded whole /\ outcome split = outcome whole.
Proof.
  cbv zeta.
  destruct (generator_values chunks) as (Hy & Ho & _ & _).
  destruct (generator_values [List.concat chunks]) as (Hy' & Ho' & _ & _).
  simpl in Hy', Ho'. rewrite app_nil_r in Hy', Ho'.
  split; congruence.
Qed.

Example split_inside_a_frame_and_a_character :
  let body := line_bytes (json "data: {'choices':[{'delta':{'content':'café ☕'}}]}")
              ++ line_bytes "data: [DONE]" in
  yielded (generator [ReadValue (firstn 47 body); ReadValue (firstn 2 (skipn 47 body));
                      ReadValue (skipn 49 body)])
  = yielded (generator [ReadValue body])
  /\ List.length (yielded (generator [ReadValue body])) = 1%nat.
Proof. vm_compute. split; reflexivity. Qed.

Lemma for_lines_returns_at (before after : list jsstring) (line : jsstring) :
  trim line = DONE ->
  for_lines (before ++ line :: after) = (fst (for_lines before), true).
Proof.
  intros H. rewrite for_lines_app, (for_lines_DONE _ _ H). simpl.
  destruct (snd (for_lines before)); [reflexivity|]. now rewrite app_nil_r.
Qed.

(** C4.  The termination frame ends the sequence at once and without
    error.  Let the successful reads [values] bring, among their complete
    lines, a line that trims to [data: [DONE]].  Then the generator yields
    what the lines before it yield and nothing else, whatever the later
    lines [after] are; it ends by [return]; and it makes no read beyond
    [values], so whatever the reader still holds in [rest] is never
    consumed. *)
Theorem termination_frame_ends_stream
  (values : list (list Byte.byte)) (rest : list ReadResult)
  (before after : list jsstring) (line : jsstring) :
  complete_lines (decoded (List.concat values)) = before ++ line :: after ->
  trim line = DONE ->
  let r := generator (map ReadValue values ++ rest) in
  yielded r = fst (for_lines before)
  /\ outcome r = Returned
  /\ (reads r <= List.length values)%nat
  /\ released r = 1%nat.
Proof.
  intros Hl Ht.
  pose proof (for_lines_returns_at before after line Ht) as Hf.
  rewrite <- Hl in Hf.
  assert (Hs : snd (for_lines (lines_read new_TextDecoder [] values)) = true)
    by (unfold lines_read; simpl; fold (decoded (List.concat values)); now rewrite Hf).
  destruct (read_loop_returns values rest new_TextDecoder [] (fun H => H) Hs)
    as (Hy & Ho & Hr & Hrel).
  unfold generator. cbv zeta. repeat split; try assumption.
  rewrite Hy. unfold lines_read. simpl. fold (decoded (List.concat values)).
  now rewrite Hf.
Qed.

Lemma termination_frame_ends_stream_witness :
  let values := [line_bytes frame_Hi;
                 line_bytes "  data: [DONE] " ++ line_bytes frame_there] in
  let rest := [ReadValue (line_bytes frame_there); ReadRejected TypeError] in
  let r := generator (map ReadValue values ++ rest) in
  yielded r = [partial_response "Hi" JUndefined]
  /\ outcome r = Returned
  /\ (reads r <= 2)%nat
  /\ released r = 1%nat.
Proof.
  exact (termination_frame_ends_stream
           [line_bytes frame_Hi;
            line_bytes "  data: [DONE] " ++ line_bytes frame_there]
           [ReadValue (line_bytes frame_there); ReadRejected TypeError]
           [lit frame_Hi] [lit frame_there] (lit "  data: [DONE] ")
           eq_refl eq_refl).
Defined.

(** ** Line feeds in decoded text

    A line feed in the decoded text comes from a byte [0x0A] and from
    nothing else: a sequence of several bytes decodes to a scalar value of
    at least [0x80], and a malformed one to U+FFFD. *)

Lemma LF_free_not_In (s : list N) : LF_free s = true -> ~ In LF s.
Proof.
  unfold LF_free. rewrite forallb_forall. intros H Hin.
  specialize (H LF Hin). now rewrite N.eqb_refl in H.
Qed.

Lemma LF_free_app (a b : list N) : LF_free (a ++ b) = LF_free a && LF_free b.
Proof. apply forallb_app. Qed.

Lemma utf8_lead_sound (bom : bool) (b : Byte.byte) :
  sound (fst (utf8_lead bom (Byte.to_N b))) = true
  /\ (b <> Byte.x0a -> LF_free (snd (utf8_lead bom (Byte.to_N b))) = true).
Proof.
  destruct b; vm_compute; (split; [reflexivity|]); intros H;
    try reflexivity; now elim H.
Qed.

Lemma continuation_bits (b : Byte.byte) :
  (144 <=? Byte.to_N b) && (Byte.to_N b <=? 191) = true ->
  negb (N.land (Byte.to_N b) 63 =? 0) && negb (N.land (Byte.to_N b) 63 =? LF) = true.
Proof. destruct b; vm_compute; intros H; (reflexivity || discriminate H). Qed.

Lemma shifted_bits (cp low : N) :
  cp <> 0 ->
  N.lor (N.shiftl cp 6) low <> 0 /\ N.lor (N.shiftl cp 6) low <> LF.
Proof.
  intros Hcp. split; intros H.
  - apply N.lor_eq_0_l, N.shiftl_eq_0_iff in H. contradiction.
  - assert (Hb : N.testbit (N.lor (N.shiftl cp 6) low) (N.log2 cp + 6) = true).
    { rewrite N.lor_spec, N.shiftl_spec_alt, N.bit_log2 by exact Hcp.
      reflexivity. }
    rewrite H in Hb. rewrite N.bits_above_log2 in Hb; [discriminate|].
    unfold LF. change (N.log2 10) with 3. lia.
Qed.

Lemma utf16_LF_free (cp : N) : cp <> LF -> LF_free (utf16 cp) = true.
Proof.
  intros H. unfold utf16, LF_free. apply forallb_forall. intros x Hin.
  apply negb_true_iff, N.eqb_neq. unfold LF in *.
  destruct (cp <? 65536).
  - destruct Hin as [<-|[]]. exact H.
  - destruct Hin as [<-|[<-|[]]]; lia.
Qed.

Lemma serialize_LF_free (scalars : list N) :
  forall bom, LF_free scalars = true -> LF_free (snd (serialize bom scalars)) = true.
Proof.
  induction scalars as [|cp rest IH]; intros bom H; [reflexivity|].
  simpl in H. apply andb_true_iff in H as [Hcp Hrest].
  apply negb_true_iff, N.eqb_neq in Hcp.
  simpl. specialize (IH true Hrest).
  destruct (serialize true rest) as [bom' out]. simpl in IH.
  destruct bom; simpl.
  - now rewrite LF_free_app, utf16_LF_free, IH.
  - destruct (cp =? 65279); simpl; [exact IH|].
    now rewrite LF_free_app, utf16_LF_free, IH.
Qed.

Lemma utf8_handler_sound (d : TextDecoder) (b : Byte.byte) :
  sound d = true ->
  sound (fst (utf8_handler d (Byte.to_N b))) = true
  /\ (b <> Byte.x0a -> LF_free (snd (utf8_handler d (Byte.to_N b))) = true).
Proof.
  intros Hd. unfold utf8_handler.
  destruct (bytes_needed d =? 0) eqn:Hn; [apply utf8_lead_sound|].
  destruct ((Byte.to_N b <? lower_boundary d) || (upper_boundary d <? Byte.to_N b))
    eqn:Hrange.
  - destruct (utf8_lead_sound (BOM_seen d) b) as [Hs Hl].
    destruct (utf8_lead (BOM_seen d) (Byte.to_N b)) as [d' out]. simpl in *.
    split; [exact Hs|]. intros Hb. now rewrite (Hl Hb).
  - assert (Hcp : N.lor (N.shiftl (code_point d) 6) (N.land (Byte.to_N b) 63) <> 0
                  /\ N.lor (N.shiftl (code_point d) 6) (N.land (Byte.to_N b) 63) <> LF).
    { unfold sound in Hd. rewrite Hn in Hd. simpl in Hd.
      destruct (code_point d =? 0) eqn:Hz.
      - apply N.eqb_eq in Hz. rewrite Hz, N.shiftl_0_l, N.lor_0_l.
        simpl in Hd. apply orb_false_iff in Hrange as [Hlo Hhi].
        apply andb_true_iff in Hd as [H1 H2].
        apply N.leb_le in H1, H2. apply N.ltb_ge in Hlo, Hhi.
        assert (Hb : (144 <=? Byte.to_N b) && (Byte.to_N b <=? 191) = true)
          by (apply andb_true_iff; split; apply N.leb_le; lia).
        apply continuation_bits, andb_true_iff in Hb as [Hb0 Hb1].
        apply negb_true_iff, N.eqb_neq in Hb0, Hb1. now split.
      - apply shifted_bits. now apply N.eqb_neq. }
    destruct Hcp as [Hcp0 HcpLF].
    destruct (bytes_seen d + 1 =? bytes_needed d); simpl.
    + split; [reflexivity|]. intros _.
      apply N.eqb_neq in HcpLF. now rewrite HcpLF.
    + split; [|reflexivity]. unfold sound. simpl.
      apply N.eqb_neq in Hcp0. rewrite Hcp0. simpl.
      now rewrite orb_true_r.
Qed.

Lemma decode_byte_sound (d : TextDecoder) (b : Byte.byte) :
  sound d = true ->
  sound (fst (decode_byte d b)) = true
  /\ (b <> Byte.x0a -> LF_free (snd (decode_byte d b)) = true).
Proof.
  intros Hd. unfold decode_byte.
  destruct (utf8_handler_sound d b Hd) as [Hs Hl].
  destruct (utf8_handler d (Byte.to_N b)) as [d' scalars]. simpl in *.
  pose proof (serialize_LF_free scalars (BOM_seen d')) as Hser.
  destruct (serialize (BOM_seen d') scalars) as [bom out]. simpl in *.
  split; [exact Hs|]. intros Hb. apply Hser, Hl, Hb.
Qed.

Lemma decode_sound (value : list Byte.byte) :
  forall d, sound d = true ->
  sound (decode_state d value) = true
  /\ (~ In Byte.x0a value -> ~ In LF (decode_text d value)).
Proof.
  unfold decode_state, decode_text.
  induction value as [|b rest IH]; intros d Hd; simpl.
  - split; [exact Hd|]. intros _ [].
  - destruct (decode_byte_sound d b Hd) as [Hs Hl].
    destruct (decode_byte d b) as [d1 out1]. simpl in *.
    destruct (IH d1 Hs) as [Hs' Hl'].
    destruct (decode d1 rest) as [d2 out2]. simpl in *.
    split; [exact Hs'|]. intros Hno Hin.
    apply in_app_or in Hin as [Hin|Hin].
    + revert Hin. apply LF_free_not_In, Hl. intros ->. apply Hno. now left.
    + revert Hin. apply Hl'. intros H. apply Hno. now right.
Qed.

Lemma decoded_tail_no_LF (bytes tail : list Byte.byte) :
  ~ In Byte.x0a tail ->
  ~ In LF (decode_text (decode_state new_TextDecoder bytes) tail).
Proof.
  apply decode_sound.
  now apply (decode_sound bytes new_TextDecoder).
Qed.

(** C6.  When the reader reports completion the generator ends without
    error, and the unfinished line left in the buffer is dropped.  Whatever
    bytes follow the last line feed of the body, in however many reads,
    they change nothing: the generator yields and ends as it does on the
    body without them, and it never ends in failure.  Unless a termination
    frame ended it before, it ends on the read that reports completion,
    the one after every chunk. *)
Theorem unterminated_tail_is_discarded (values tail : list (list Byte.byte)) :
  ~ In Byte.x0a (List.concat tail) ->
  let r := generator (map ReadValue (values ++ tail)) in
  let r0 := generator (map ReadValue values) in
  yielded r = yielded r0
  /\ outcome r = outcome r0
  /\ (outcome r = Completed \/ outcome r = Returned)
  /\ (outcome r = Completed -> reads r = S (List.length (values ++ tail))).
Proof.
  intros Htail. cbv zeta.
  destruct (generator_values (values ++ tail)) as (Hy & Ho & _ & Hr).
  destruct (generator_values values) as (Hy0 & Ho0 & _ & _).
  assert (Hlines : complete_lines (decoded (List.concat (values ++ tail)))
                   = complete_lines (decoded (List.concat values))).
  { unfold decoded. rewrite concat_app, decode_text_app, complete_lines_app.
    set (t := decode_text _ (List.concat tail)).
    assert (Hno : ~ In LF (partial_line (decode_text new_TextDecoder (List.concat values)) ++ t)).
    { intros Hin. apply in_app_or in Hin as [Hin|Hin].
      - now apply partial_line_no_LF in Hin.
      - revert Hin. now apply decoded_tail_no_LF. }
    unfold complete_lines at 2. rewrite (split_LF_no_LF _ Hno). simpl.
    apply app_nil_r. }
  rewrite Hlines in Hy, Ho, Hr.
  repeat split; try congruence.
  - rewrite Ho. destruct (snd (for_lines _)); [now right|now left].
  - rewrite Ho. destruct (snd (for_lines _)); [discriminate|]. intros _. now apply Hr.
Qed.

Lemma unterminated_tail_is_discarded_witness :
  let values := [line_bytes frame_Hi] in
  let tail := [list_byte_of_string "data: {"; list_byte_of_string frame_there] in
  let r := generator (map ReadValue (values ++ tail)) in
  let r0 := generator (map ReadValue values) in
  yielded r = yielded r0
  /\ outcome r = outcome r0
  /\ (outcome r = Completed \/ outcome r = Returned)
  /\ (outcome r = Completed -> reads r = S (List.length (values ++ tail))).
Proof.
  apply (unterminated_tail_is_discarded
           [line_bytes frame_Hi]
           [list_byte_of_string "data: {"; list_byte_of_string frame_there]).
  vm_compute. intuition discriminate.
Defined.

Example unterminated_frame_is_never_yielded :
  generator [ReadValue (line_bytes frame_Hi ++ list_byte_of_string frame_there)]
  = mkRun [partial_response "Hi" JUndefined] Completed 2 1.
Proof. vm_compute. reflexivity. Qed.

(** ** Frames that yield nothing *)

(** A silent line among the complete lines of a body leaves no trace: the
    generator yields and ends as the loop does on the other lines. *)
Lemma generator_skips_silent_line (values : list (list Byte.byte))
  (before after : list jsstring) (line : jsstring) :
  complete_lines (decoded (List.concat values)) = before ++ line :: after ->
  silent line ->
  let r := generator (map ReadValue values) in
  yielded r = fst (for_lines (before ++ after))
  /\ outcome r = (if snd (for_lines (before ++ after)) then Returned else Completed).
Proof.
  intros Hl Hs. cbv zeta.
  destruct (generator_values values) as (Hy & Ho & _ & _).
  rewrite Hl, (for_lines_silent_middle _ _ _ Hs) in Hy, Ho. now split.
Qed.




Example malformed_frame_then_valid_frame :
  generator [ReadValue (line_bytes "data: not-json" ++ line_bytes frame_Hi)]
  = mkRun [partial_response "Hi" JUndefined] Completed 2 1.
Proof. vm_compute. reflexivity. Qed.

Lemma try_frame_falsy (trimmed : jsstring) (d : jsval) :
  JSON_parse (slice 6 trimmed) = Normal d ->
  (forall v, delta_content d = Normal v -> ToBoolean v = false) ->
  frame trimmed = None.
Proof.
  intros Hp Hv. unfold frame, try_frame. rewrite Hp. simpl.
  unfold delta_content in Hv.
  destruct (get d P_choices) as [choices|]; simpl in *; [|reflexivity].
  destruct (get choices P_0) as [choice|]; simpl in *; [|reflexivity].
  destruct (get_optional choice P_delta) as [delta|]; simpl in *; [|reflexivity].
  destruct (get_optional delta P_content) as [content|]; simpl in *; [|reflexivity].
  now rewrite (Hv content eq_refl).
Qed.

Lemma lacks_choices_no_content (d : jsval) (v : jsval) :
  lacks_choices d -> delta_content d = Normal v -> v = JUndefined.
Proof.
  unfold lacks_choices, delta_content.
  destruct (get d P_choices) as [choices|]; simpl; [|discriminate].
  destruct choices as [| |b|m e|s|items|members]; simpl;
    try contradiction; try discriminate; intros _ H.
  - now injection H.
  - now injection H.
  - destruct s; simpl in H; now injection H.
Qed.

Lemma try_frame_choices_undefined (trimmed : jsstring) (d : jsval) :
  JSON_parse (slice 6 trimmed) = Normal d ->
  get d P_choices = Normal JUndefined ->
  try_frame trimmed = Throw TypeError.
Proof. intros Hp Hc. unfold try_frame. now rewrite Hp; simpl; rewrite Hc. Qed.

(** C9 as stated fails when [choices] is an object that is not
    an array.  The payload below parses, and its [choices] is no array; but
    [choices[0]] reads the member named [0], and the line yields a
    response. *)
Lemma choices_object_is_indexed :
  (d <- JSON_parse (slice 6 (trim choices_object_line)) ;; get d P_choices)
  = Normal (JObject [(lit "0",
              JObject [(lit "delta", JObject [(lit "content", JString (lit "x"))])])])
  /\ frame (trim choices_object_line) = Some (partial_response "x" JUndefined)
  /\ for_lines [choices_object_line] = ([partial_response "x" JUndefined], false).
Proof. vm_compute. repeat split. Qed.

(** C9, amended.  A line whose payload parses but has nothing to index
    under [choices] (the member is missing, or is [null], a boolean, a
    number or a string), or whose first choice has no delta content (the
    content is missing, [null] or empty), yields nothing, and the stream is
    not aborted.  When the member is missing,
    the read of [choices[0]] throws a [TypeError], which the handler that
    covers the failures of [JSON.parse] swallows.  The loop over the lines,
    and so the generator, yields and ends exactly as if the line were not
    there, so every frame after it still decodes. *)
Theorem frame_without_choices_is_skipped
  (values : list (list Byte.byte)) (before after : list jsstring)
  (line : jsstring) (d : jsval) :
  complete_lines (decoded (List.concat values)) = before ++ line :: after ->
  startsWith (trim line) data_prefix = true ->
  JSON_parse (slice 6 (trim line)) = Normal d ->
  lacks_choices d \/ (exists v, delta_content d = Normal v /\ ToBoolean v = false) ->
  frame (trim line) = None
  /\ (get d P_choices = Normal JUndefined -> try_frame (trim line) = Throw TypeError)
  /\ for_lines (before ++ line :: after) = for_lines (before ++ after)
  /\ let r := generator (map ReadValue values) in
     yielded r = fst (for_lines (before ++ after))
     /\ outcome r = (if snd (for_lines (before ++ after)) then Returned else Completed).
Proof.
  intros Hl Hp Hd Hc.
  assert (Hf : frame (trim line) = None).
  { apply (try_frame_falsy _ d Hd). intros v Hv. destruct Hc as [Hc|Hc].
    - now rewrite (lacks_choices_no_content d v Hc Hv).
    - destruct Hc as (v' & Hv' & Hfalse). rewrite Hv' in Hv.
      now injection Hv as <-. }
  assert (Hs : silent line).
  { split; [|intros _; exact Hf]. intros Hdone. rewrite Hdone in Hd.
    vm_compute in Hd. discriminate. }
  split; [exact Hf|]. split; [apply try_frame_choices_undefined, Hd|]. split.
  - exact (for_lines_silent_middle before after line Hs).
  - exact (generator_skips_silent_line values before after line Hl Hs).
Qed.

Lemma frame_without_choices_is_skipped_witness :
  let error_line := lit (json "data: {'error':{'message':'overloaded'}}") in
  let values := [line_bytes (json "data: {'error':{'message':'overloaded'}}")
                 ++ line_bytes frame_Hi] in
  frame (trim error_line) = None
  /\ (get (JObject [(lit "error", JObject [(lit "message", JString (lit "overloaded"))])])
          P_choices = Normal JUndefined ->
      try_frame (trim error_line) = Throw TypeError)
  /\ for_lines ([] ++ error_line :: [valid_frame_line])
     = for_lines ([] ++ [valid_frame_line])
  /\ let r := generator (map ReadValue values) in
     yielded r = fst (for_lines ([] ++ [valid_frame_line]))
     /\ outcome r = (if snd (for_lines ([] ++ [valid_frame_line]))
                     then Returned else Completed).
Proof.
  apply (frame_without_choices_is_skipped
           [line_bytes (json "data: {'error':{'message':'overloaded'}}")
            ++ line_bytes frame_Hi]
           [] [valid_frame_line]
           (lit (json "data: {'error':{'message':'overloaded'}}"))
           (JObject [(lit "error", JObject [(lit "message", JString (lit "overloaded"))])])).
  - reflexivity.
  - reflexivity.
  - reflexivity.
  - left. exact I.
Defined.

Example frames_of_other_shapes_are_skipped :
  for_lines (map (fun s => lit (json s))
               ["data: null"; "data: 7"; "data: {'choices':null}";
                "data: {'choices':'abc'}"; "data: {'choices':[]}";
                "data: {'choices':[{'delta':{}}]}";
                "data: {'choices':[{'delta':{'content':''}}]}";
                "data: {'choices':[{'delta':{'content':null}}]}";
                ": keep-alive"; "event: ping"; "   "]%string)
  = ([], false).
Proof. vm_compute. reflexivity. Qed.

(** ** The request translator *)

Lemma textParts_concatenated (ps : list Part) :
  join (map text_or_empty (filter text_is_truthy ps)) = concatenated_text ps.
Proof.
  unfold join. induction ps as [|p ps IH]; [reflexivity|].
  simpl. unfold text_is_truthy at 1.
  destruct (text p) as [[|c t]|] eqn:Hp.
  - exact IH.
  - simpl. unfold text_or_empty at 1. now rewrite Hp, IH.
  - exact IH.
Qed.

(** C2 as stated fails on a role other than [model] and [user]:
    the role is passed on unchanged, not replaced by [user]; and a turn
    whose role already is [assistant] gives an [assistant] message although
    its role was not [model]. *)
Lemma other_roles_pass_through :
  role system_turn <> Some (lit "model")
  /\ map message_role (convertContentsToMessages (contents_array [system_turn]))
     = [lit "system"]
  /\ lit "system" <> lit "user"
  /\ map message_role
       (convertContentsToMessages
          (contents_array [mkContent (Some (lit "assistant")) None]))
     = [lit "assistant"].
Proof. vm_compute. repeat split; discriminate. Qed.

(** C2, amended.  The request translator gives exactly one message per
    turn, in the same order.  The role of a message is [assistant] when the
    role of the turn is [model], [user] when the turn has no role or an
    empty one, and the role of the turn itself in every other case.  The
    content of a message is the concatenation, in order, of the text parts
    of the turn; parts without text contribute nothing. *)
Theorem one_message_per_turn (turns : list Content) :
  let out := convertContentsToMessages (contents_array turns) in
  List.length out = List.length turns
  /\ forall (i : nat) (turn : Content),
       nth_error turns i = Some turn ->
       exists msg,
         nth_error out i = Some msg
         /\ (role turn = Some (lit "model") -> message_role msg = lit "assistant")
         /\ (role turn = None \/ role turn = Some [] -> message_role msg = lit "user")
         /\ (forall r, role turn = Some r -> r <> lit "model" -> r <> [] ->
               message_role msg = r)
         /\ message_content msg = turn_text turn.
Proof.
  cbv zeta. simpl. split; [apply length_map|].
  intros i turn Hi. exists (convertContent turn).
  split; [now apply map_nth_error|].
  unfold convertContent. simpl. repeat split.
  - intros ->. reflexivity.
  - intros [-> | ->]; reflexivity.
  - intros r -> Hm He.
    destruct (jsstring_eqb r (lit "model")) eqn:Heq.
    + apply jsstring_eqb_eq in Heq. contradiction.
    + destruct r; [contradiction|reflexivity].
  - unfold turn_text. destruct (parts turn) as [ps|]; [|reflexivity].
    apply textParts_concatenated.
Qed.

Example string_becomes_one_user_message :
  convertContentsToMessages (contents_string (lit "hello"))
  = [mkMessage (lit "user") (lit "hello")].
Proof. reflexivity. Qed.

Example conversation_is_translated :
  convertContentsToMessages
    (contents_array
       [mkContent (Some (lit "user"))
          (Some [text_part "What is "; mkPart None (Some (fileData (lit "gs://b/o")));
                 text_part ""; text_part "this?"]);
        mkContent (Some (lit "model")) (Some [text_part "A file."]);
        mkContent None None])
  = [mkMessage (lit "user") (lit "What is this?");
     mkMessage (lit "assistant") (lit "A file.");
     mkMessage (lit "user") []].
Proof. reflexivity. Qed.

(** ** The response translator *)

(** Optional chaining never throws. *)
Lemma get_optional_normal (v : jsval) (p : property) :
  exists x, get_optional v p = Normal x.
Proof.
  destruct v as [| |b|m e|s|items|members]; simpl; eauto.
  - destruct p, s; eauto.
  - destruct p; eauto.
  - destruct (own_property members (property_name p)); eauto.
Qed.

(** With a [choices] array in the answer the translator does what is
    expected of it: the text is the first choice's message content, or the
    empty string when the content, the message or the choice is missing; the
    one candidate carries that text as its one part, with role [model]; the
    finish reason is the one of the first choice as it stands, absent when
    that is absent; the raw answer is kept. *)
Lemma convertOpenAIResponseToGemini_choices_array (d : jsval) (items : list jsval) :
  get d P_choices = Normal (JArray items) ->
  exists content finish_reason,
    (choice <- get (JArray items) P_0 ;;
     message <- get_optional choice P_message ;;
     get_optional message P_content) = Normal content
    /\ get_optional (nth 0 items JUndefined) P_finish_reason = Normal finish_reason
    /\ convertOpenAIResponseToGemini d
       = Normal (mkGenerateContentResponse
                   [mkCandidate
                      (mkCandidateContent
                         [if ToBoolean content then content else JString []]
                         (lit "model"))
                      finish_reason (Some 0)]
                   (if ToBoolean content then content else JString [])
                   (Some (mkExtras [] JUndefined JUndefined d))).
Proof.
  intros Hc. unfold convertOpenAIResponseToGemini. rewrite Hc. simpl.
  set (choice := nth 0 items JUndefined).
  destruct (get_optional_normal choice P_message) as [message Hm].
  destruct (get_optional_normal message P_content) as [content Hct].
  destruct (get_optional_normal choice P_finish_reason) as [f Hf].
  rewrite Hm. simpl. rewrite Hct. simpl. rewrite Hf. simpl.
  exists content, f. repeat split.
Qed.

Example translates_a_completion :
  (d <- JSON_parse (lit (json "{'choices':[{'message':{'content':'ok'},'finish_reason':'stop'}]}")) ;;
   r <- convertOpenAIResponseToGemini d ;;
   Normal (response_primary_text r, map finishReason (candidates r),
           map candidate_content (candidates r)))
  = Normal (JString (lit "ok"), [JString (lit "stop")],
            [mkCandidateContent [JString (lit "ok")] (lit "model")]).
Proof. vm_compute. reflexivity. Qed.

Example translates_an_empty_choice_list :
  (d <- JSON_parse (lit (json "{'choices':[]}")) ;;
   r <- convertOpenAIResponseToGemini d ;;
   Normal (response_primary_text r, map finishReason (candidates r)))
  = Normal (JString [], [JUndefined]).
Proof. vm_compute. reflexivity. Qed.

(** C3.  On an answer without a [choices] array the translator does not
    return a response with the empty string as its text: [data.choices[0]]
    reads index 0 of [undefined] and throws a [TypeError], which nothing
    catches, so [generateContent] fails with it. *)
Theorem answer_without_choices_throws :
  (d <- JSON_parse error_answer ;; convertOpenAIResponseToGemini d) = Throw TypeError
  /\ forall self request,
       fst (generateContent self request (answering error_answer)) = Throw TypeError.
Proof. split; [vm_compute; reflexivity|]. intros self request. reflexivity. Qed.

(** ** The token estimate *)

Lemma counted_parts_concatenated (ps : list Part) :
  join (filter is_nonempty (map text_in_part ps)) = concatenated_text ps.
Proof.
  unfold join. induction ps as [|p ps IH]; [reflexivity|].
  simpl. assert (Hp : text_in_part p = match text p with Some t => t | None => [] end)
    by reflexivity.
  rewrite Hp. destruct (text p) as [[|c t]|]; simpl; now rewrite IH.
Qed.

Lemma Math_ceil_quarter_div (n : nat) :
  Math_ceil_quarter n = (- ((- Z.of_nat n) / 4))%Z.
Proof.
  unfold Math_ceil_quarter, Qceiling, Qfloor, Qdiv, Qmult, Qinv, Qopp, inject_Z.
  cbn [Qnum Qden]. change (Z.pos (1 * 4)) with 4%Z.
  now rewrite Z.mul_1_r.
Qed.

(** [Math_ceil_quarter n] is the least integer that is at least [n / 4]. *)
Lemma Math_ceil_quarter_bounds (n : nat) :
  (4 * (Math_ceil_quarter n - 1) < Z.of_nat n <= 4 * Math_ceil_quarter n)%Z.
Proof.
  rewrite Math_ceil_quarter_div.
  pose proof (Z.div_mod (- Z.of_nat n) 4 ltac:(lia)) as Hdm.
  pose proof (Z.mod_pos_bound (- Z.of_nat n) 4 ltac:(lia)) as Hb.
  lia.
Qed.

(** C7.  For every content, [countTokens] returns normally, leaves the
    world as it was (no invocation of the transport), and its total is the
    ceiling of a quarter of the number of code units of all text parts
    concatenated: the least integer [n] with [length <= 4 * n].  A text of
    length 10 gives 3, no text gives 0. *)
Theorem token_estimate (request : CountTokensParameters) (w : World) :
  let characters := List.length (all_text (count_contents request)) in
  exists n : Z,
    countTokens request w = (Normal (mkCount n), w)
    /\ (4 * (n - 1) < Z.of_nat characters <= 4 * n)%Z
    /\ (characters = 10%nat -> n = 3%Z)
    /\ (characters = 0%nat -> n = 0%Z).
Proof.
  cbv zeta. destruct request as [m c]. simpl count_contents.
  exists (Math_ceil_quarter (List.length (all_text c))).
  pose proof (Math_ceil_quarter_bounds (List.length (all_text c))) as Hb.
  repeat split; try lia.
  unfold countTokens, ret. simpl count_contents. repeat f_equal.
  destruct c as [s|turns|turn|p|]; try reflexivity.
  simpl. unfold join at 1. f_equal. apply map_ext. intros turn.
  unfold turn_text. destruct (parts turn) as [ps|]; [|reflexivity].
  apply counted_parts_concatenated.
Qed.

Example ten_characters_are_three_tokens :
  fst (countTokens
         (mkCountParameters (lit "google/gemini-2.0-flash-001")
            (contents_array
               [mkContent (Some (lit "user")) (Some [text_part "hello"; text_part " "]);
                mkContent (Some (lit "model")) (Some [text_part "worl"])]))
         (answering []))
  = Normal (mkCount 3).
Proof. reflexivity. Qed.

(** ** The unsupported operation *)

(** C8.  [embedContent] fails on every request, with an error that says
    what is not supported, and without any invocation of the transport: the
    world it leaves is the world it found. *)
Theorem embed_always_fails {Request Response : Type} (request : Request) (w : World) :
  fst (@embedContent Request Response request w)
  = Throw (Error (lit "Embed content not supported via OpenRouter yet."))
  /\ (forall v, fst (@embedContent Request Response request w) <> Normal v)
  /\ snd (@embedContent Request Response request w) = w
  /\ invocations (snd (@embedContent Request Response request w)) = invocations w.
Proof. repeat split. intros v H. discriminate H. Qed.

(** ** Contents of another shape *)

(** C10.  When the contents are neither a string nor an array, the request
    translator returns the empty list and throws nothing; the body of the
    request, and so the one request handed to the transport by
    [generateContent] and by [generateContentStream], carries no message;
    and [countTokens] counts 0. *)
Theorem contents_of_another_shape (c : ContentListUnion) :
  typeof_string c = false ->
  Array_isArray c = false ->
  convertContentsToMessages c = []
  /\ (forall self cfg streaming,
        messages (request_body self (mkParameters c cfg) streaming) = [])
  /\ (forall self cfg w,
        exists b,
          invocations (snd (generateContent self (mkParameters c cfg) w))
          = invocations w ++ [chat_completions self b]
          /\ messages b = [])
  /\ (forall self cfg w,
        exists b,
          invocations (snd (generateContentStream self (mkParameters c cfg) w))
          = invocations w ++ [chat_completions self b]
          /\ messages b = [])
  /\ forall m w, countTokens (mkCountParameters m c) w = (Normal (mkCount 0), w).
Proof.
  intros Hs Ha.
  assert (Hm : convertContentsToMessages c = [])
    by (destruct c; try reflexivity; discriminate).
  split; [exact Hm|]. split; [intros; simpl; exact Hm|]. split; [|split].
  - intros self cfg w.
    exists (request_body self (mkParameters c cfg) None).
    split; [|exact Hm].
    unfold generateContent, mbind, fetch. simpl.
    destruct (transport w _) as [response|e]; [|reflexivity].
    destruct (ok response); simpl; [|reflexivity].
    unfold lift.
    destruct (JSON_parse (response_text response)); reflexivity.
  - intros self cfg w.
    exists (request_body self (mkParameters c cfg) (Some true)).
    split; [|exact Hm].
    unfold generateContentStream, mbind, fetch. simpl.
    destruct (transport w _) as [response|e]; [|reflexivity].
    destruct (ok response); simpl; [|reflexivity].
    destruct (response_body response); reflexivity.
  - intros m w. destruct c; try reflexivity; discriminate.
Qed.

Lemma contents_of_another_shape_witness :
  let c := contents_content
             (mkContent (Some (lit "user")) (Some [text_part "hello"])) in
  convertContentsToMessages c = []
  /\ (forall self cfg streaming,
        messages (request_body self (mkParameters c cfg) streaming) = [])
  /\ (forall self cfg w,
        exists b,
          invocations (snd (generateContent self (mkParameters c cfg) w))
          = invocations w ++ [chat_completions self b]
          /\ messages b = [])
  /\ (forall self cfg w,
        exists b,
          invocations (snd (generateContentStream self (mkParameters c cfg) w))
          = invocations w ++ [chat_completions self b]
          /\ messages b = [])
  /\ forall m w, countTokens (mkCountParameters m c) w = (Normal (mkCount 0), w).
Proof.
  exact (contents_of_another_shape
           (contents_content (mkContent (Some (lit "user")) (Some [text_part "hello"])))
           eq_refl eq_refl).
Defined.

(** ** The decoder in closed form *)

Lemma for_lines_closed (lines : list jsstring) :
  for_lines lines
  = (responses_of (before_termination lines), existsb is_termination_frame lines).
Proof.
  unfold responses_of.
  induction lines as [|line rest IH]; [reflexivity|].
  cbn [for_lines before_termination existsb].
  assert (Hf : frame_of_line line
               = if startsWith (trim line) data_prefix then frame (trim line) else None)
    by reflexivity.
  unfold is_termination_frame at 1 2.
  destruct (trim line) as [|c t] eqn:Ht.
  - change (jsstring_eqb [] DONE) with false. cbn [flat_map orb].
    rewrite Hf. exact IH.
  - destruct (jsstring_eqb (c :: t) DONE); [reflexivity|].
    cbn [flat_map orb]. rewrite Hf.
    destruct (startsWith (c :: t) data_prefix).
    + destruct (frame (c :: t)); rewrite IH; reflexivity.
    + exact IH.
Qed.

(** X1.  The generator in closed form.  Over successful reads it yields,
    in the order of the lines, what each complete line of the decoded body
    contributes, for the lines before the first termination frame; it ends
    by [return] when there is a termination frame among the complete lines
    and by completion otherwise. *)
Theorem generator_closed_form (values : list (list Byte.byte)) :
  let lines := complete_lines (decoded (List.concat values)) in
  let r := generator (map ReadValue values) in
  yielded r = responses_of (before_termination lines)
  /\ outcome r = (if existsb is_termination_frame lines then Returned else Completed).
Proof.
  cbv zeta. destruct (generator_values values) as (Hy & Ho & _ & _).
  rewrite for_lines_closed in Hy, Ho. now split.
Qed.

Lemma frame_shape (trimmed : jsstring) (r : GenerateContentResponse) :
  frame trimmed = Some r -> partial_shape r.
Proof.
  unfold frame, try_frame.
  destruct (JSON_parse (slice 6 trimmed)) as [d|]; simpl; [|discriminate].
  destruct (get d P_choices) as [choices|]; simpl; [|discriminate].
  destruct (get choices P_0) as [choice|]; simpl; [|discriminate].
  destruct (get_optional choice P_delta) as [delta|]; simpl; [|discriminate].
  destruct (get_optional delta P_content) as [content|]; simpl; [|discriminate].
  destruct (ToBoolean content) eqn:Hc; [|discriminate].
  destruct (get_optional_normal choice P_finish_reason) as [f Hf].
  rewrite Hf. simpl. intros H. injection H as <-.
  exists content, (logical_or f JUndefined). repeat split; [exact Hc|].
  unfold logical_or. destruct (ToBoolean f) eqn:Hb; [now right|now left].
Qed.

Lemma for_lines_shape (lines : list jsstring) :
  Forall partial_shape (fst (for_lines lines)).
Proof.
  rewrite for_lines_closed. simpl.
  induction (before_termination lines) as [|line rest IH]; [constructor|].
  simpl. unfold frame_of_line at 1.
  destruct (startsWith (trim line) data_prefix); [|exact IH].
  destruct (frame (trim line)) as [r|] eqn:Hf; [|exact IH].
  constructor; [now apply (frame_shape (trim line))|exact IH].
Qed.

(** X2.  Whatever the reader delivers (chunks of any bytes, rejections),
    every response the generator yields has one candidate of role [model]
    whose one part is the response's text; the text is truthy, so never the
    empty string; the finish reason is [undefined] or truthy, so never
    [null] or empty; and none of the fields of a full answer is set. *)
Theorem yielded_responses_shape (reader : list ReadResult) :
  Forall partial_shape (yielded (generator reader)).
Proof.
  unfold generator. generalize new_TextDecoder, ([] : jsstring).
  induction reader as [|[value|e] reader IH]; intros d buffer;
    [constructor| |constructor].
  rewrite read_loop_value. cbv zeta.
  pose proof (for_lines_shape (complete_lines (buffer ++ decode_text d value))) as Hs.
  destruct (snd (for_lines _)); [exact Hs|].
  simpl. apply Forall_app. split; [exact Hs|apply IH].
Qed.

(** ** What more input can and cannot change *)

(** X3.  Nothing yielded is ever taken back.  What the generator yields
    over the reads [values] is a prefix of what it yields when the reader
    goes on after them, whatever comes next: further chunks, a rejection,
    or the end. *)
Theorem yielded_grows_with_input (values : list (list Byte.byte))
  (rest : list ReadResult) :
  exists later,
    yielded (generator (map ReadValue values ++ rest))
    = yielded (generator (map ReadValue values)) ++ later.
Proof.
  destruct (generator_values values) as (Hy & _ & _ & _).
  rewrite Hy. unfold generator, decoded.
  change (complete_lines (decode_text new_TextDecoder (List.concat values)))
    with (lines_read new_TextDecoder [] values).
  destruct (snd (for_lines (lines_read new_TextDecoder [] values))) eqn:Hs.
  - destruct (read_loop_returns values rest new_TextDecoder [] (fun H => H) Hs)
      as (Hy' & _).
    exists []. now rewrite Hy', app_nil_r.
  - rewrite read_loop_continues by (exact Hs || intros []).
    simpl. eauto.
Qed.

Lemma before_termination_none (lines : list jsstring) :
  existsb is_termination_frame lines = false -> before_termination lines = lines.
Proof.
  induction lines as [|l ls IH]; [reflexivity|].
  simpl. destruct (is_termination_frame l); [discriminate|].
  intros H. now rewrite IH.
Qed.

(** X4.  A rejected read ends the generator in failure with the error of
    the rejection, after it has yielded everything the earlier chunks
    held.  With no termination frame among the complete lines of the chunks
    before the rejection, the generator yields what those lines yield,
    fails with that very error, has made one read per chunk and the one
    that was rejected, and reads nothing of what the reader holds after
    it. *)
Theorem rejected_read_fails_the_stream (values : list (list Byte.byte))
  (e : exn) (rest : list ReadResult) :
  let lines := complete_lines (decoded (List.concat values)) in
  existsb is_termination_frame lines = false ->
  generator (map ReadValue values ++ ReadRejected e :: rest)
  = mkRun (responses_of lines) (Failed e) (S (List.length values)) 1.
Proof.
  cbv zeta. intros Hno. unfold generator, decoded in *.
  change (complete_lines (decode_text new_TextDecoder (List.concat values)))
    with (lines_read new_TextDecoder [] values) in *.
  pose proof (for_lines_closed (lines_read new_TextDecoder [] values)) as Hc.
  rewrite Hno, (before_termination_none _ Hno) in Hc.
  rewrite read_loop_continues by (intros [] || now rewrite Hc).
  rewrite Hc. unfold after_reads. simpl.
  now rewrite app_nil_r, Nat.add_1_r.
Qed.

Lemma rejected_read_fails_the_stream_witness :
  generator (map ReadValue [line_bytes frame_Hi; list_byte_of_string "data: {"]
             ++ ReadRejected (Error (lit "terminated")) :: [ReadValue (line_bytes frame_there)])
  = mkRun (responses_of
             (complete_lines
                (decoded (List.concat [line_bytes frame_Hi; list_byte_of_string "data: {"]))))
          (Failed (Error (lit "terminated"))) 3 1.
Proof.
  exact (rejected_read_fails_the_stream
           [line_bytes frame_Hi; list_byte_of_string "data: {"]
           (Error (lit "terminated")) [ReadValue (line_bytes frame_there)] eq_refl).
Defined.

(** ** Lines that are not frames *)

(** X5.  A complete line that, trimmed, does not begin with [data: ] (a
    blank line between events, a comment such as [: keep-alive], an
    [event:] or [id:] field) is ignored: the loop over the lines, and so
    the generator, yields and ends exactly as if the line were not
    there. *)
Theorem line_without_prefix_is_ignored
  (values : list (list Byte.byte)) (before after : list jsstring) (line : jsstring) :
  complete_lines (decoded (List.concat values)) = before ++ line :: after ->
  startsWith (trim line) data_prefix = false ->
  for_lines (before ++ line :: after) = for_lines (before ++ after)
  /\ let r := generator (map ReadValue values) in
     yielded r = fst (for_lines (before ++ after))
     /\ outcome r = (if snd (for_lines (before ++ after)) then Returned else Completed).
Proof.
  intros Hl Hp.
  assert (Hs : silent line).
  { split; [|intros H; rewrite H in Hp; discriminate].
    intros Hd. rewrite Hd in Hp. discriminate Hp. }
  split.
  - exact (for_lines_silent_middle before after line Hs).
  - exact (generator_skips_silent_line values before after line Hl Hs).
Qed.

Lemma line_without_prefix_is_ignored_witness :
  let values := [line_bytes ": keep-alive" ++ line_bytes frame_Hi] in
  for_lines ([] ++ lit ": keep-alive" :: [valid_frame_line])
  = for_lines ([] ++ [valid_frame_line])
  /\ let r := generator (map ReadValue values) in
     yielded r = fst (for_lines ([] ++ [valid_frame_line]))
     /\ outcome r = (if snd (for_lines ([] ++ [valid_frame_line]))
                     then Returned else Completed).
Proof.
  exact (line_without_prefix_is_ignored
           [line_bytes ": keep-alive" ++ line_bytes frame_Hi]
           [] [valid_frame_line] (lit ": keep-alive") eq_refl eq_refl).
Defined.

(** ** Requests and answers *)

(** X7.  Each call of [generateContent] and of [generateContentStream]
    hands exactly one request to the transport, whatever comes of it (an
    answer, an error status, a body that cannot be parsed or translated, a
    rejection): a POST to the base URL followed by [/chat/completions],
    whose body is the request body, with [stream] set to [true] for the
    streaming call only.  Nothing is retried. *)
Theorem one_request_per_call (self : OpenRouterContentGenerator)
  (request : GenerateContentParameters) (w : World) :
  invocations (snd (generateContent self request w))
  = invocations w ++ [chat_completions self (request_body self request None)]
  /\ invocations (snd (generateContentStream self request w))
     = invocations w ++ [chat_completions self (request_body self request (Some true))]
  /\ stream (request_body self request None) = None
  /\ stream (request_body self request (Some true)) = Some true.
Proof.
  repeat split.
  - unfold generateContent, mbind, fetch. simpl.
    destruct (transport w _) as [response|e]; [|reflexivity].
    destruct (ok response); simpl; [|reflexivity].
    unfold lift. destruct (JSON_parse (response_text response)); reflexivity.
  - unfold generateContentStream, mbind, fetch. simpl.
    destruct (transport w _) as [response|e]; [|reflexivity].
    destruct (ok response); simpl; [|reflexivity].
    destruct (response_body response); reflexivity.
Qed.

Example error_message_spells_the_status :
  api_error (mkResponse false 429 (lit "Too Many Requests") (lit "slow down") None)
  = Error (lit "OpenRouter API Error: 429 Too Many Requests - slow down").
Proof. vm_compute. reflexivity. Qed.

(** X9.  A streaming call that is answered with a success status but
    without a body fails with the error [No response body]; no generator
    is made. *)
Theorem missing_body_is_raised (self : OpenRouterContentGenerator)
  (request : GenerateContentParameters) (w : World) (response : FetchResponse) :
  (forall q, transport w q = Normal response) ->
  ok response = true ->
  response_body response = None ->
  fst (generateContentStream self request w) = Throw (Error (lit "No response body")).
Proof.
  intros Ht Hok Hb. unfold generateContentStream, mbind, fetch. simpl.
  now rewrite Ht, Hok, Hb.
Qed.

Lemma missing_body_is_raised_witness :
  fst (generateContentStream (constructor (fun _ => None) (lit "key"))
         (mkParameters (contents_string (lit "hello")) None)
         (answering_with (mkResponse true 200 (lit "OK") [] None)))
  = Throw (Error (lit "No response body")).
Proof.
  apply (missing_body_is_raised
           (constructor (fun _ => None) (lit "key"))
           (mkParameters (contents_string (lit "hello")) None)
           (answering_with (mkResponse true 200 (lit "OK") [] None))
           (mkResponse true 200 (lit "OK") [] None)).
  - intros q. reflexivity.
  - reflexivity.
  - reflexivity.
Defined.

Lemma get_throws_TypeError (v : jsval) (p : property) (e : exn) :
  get v p = Throw e -> e = TypeError /\ nullish v = true.
Proof.
  destruct v as [| |b|m x|s|items|members]; simpl; intros H;
    try (injection H as <-; now split); try discriminate.
  - destruct p, s; discriminate.
  - destruct p; discriminate.
  - destruct (own_property members (property_name p)); discriminate.
Qed.

Lemma get_normal (v : jsval) (p : property) :
  nullish v = false -> exists x, get v p = Normal x.
Proof.
  intros Hv. pose proof (get_optional_normal v p) as H.
  destruct v; simpl in *; try discriminate; exact H.
Qed.

Lemma translator_returns (d choices : jsval) :
  get d P_choices = Normal choices ->
  nullish choices = false ->
  exists r, convertOpenAIResponseToGemini d = Normal r /\ answer_shape d r.
Proof.
  intros Hc Hn. unfold convertOpenAIResponseToGemini. rewrite Hc. simpl.
  destruct (get_normal choices P_0 Hn) as [choice Hch]. rewrite Hch. simpl.
  destruct (get_optional_normal choice P_message) as [message Hm].
  destruct (get_optional_normal message P_content) as [content Hct].
  destruct (get_optional_normal choice P_finish_reason) as [f Hf].
  rewrite Hm. simpl. rewrite Hct. simpl. rewrite Hf. simpl.
  eexists. split; [reflexivity|].
  exists (logical_or content (JString [])), f. split; [reflexivity|].
  unfold logical_or. destruct (ToBoolean content) eqn:Hb; [now right|now left].
Qed.

Lemma translator_throws (d : jsval) :
  without_choices d -> convertOpenAIResponseToGemini d = Throw TypeError.
Proof.
  unfold without_choices, convertOpenAIResponseToGemini.
  destruct (get d P_choices) as [choices|e] eqn:Hc; simpl.
  - intros Hn. destruct choices; try discriminate; reflexivity.
  - intros _. now destruct (get_throws_TypeError _ _ _ Hc) as [-> _].
Qed.

(** X11.  The translator fails exactly on an answer without choices: one
    that is itself [null] or whose [choices] is missing or [null]; it then
    throws a [TypeError], and it never throws anything else.  On every
    other answer, be its [choices] an empty array or a value of another
    shape, it returns a response with one candidate of role [model] and
    index 0 whose one part is the text, a text that is the empty string
    unless it is truthy, no function calls, and the answer itself kept. *)
Theorem translator_fails_only_without_choices (d : jsval) :
  (convertOpenAIResponseToGemini d = Throw TypeError <-> without_choices d)
  /\ (forall e, convertOpenAIResponseToGemini d = Throw e -> e = TypeError)
  /\ (forall r, convertOpenAIResponseToGemini d = Normal r -> answer_shape d r).
Proof.
  assert (Hcases : without_choices d
                   \/ exists r, convertOpenAIResponseToGemini d = Normal r
                                /\ answer_shape d r).
  { unfold without_choices.
    destruct (get d P_choices) as [choices|e] eqn:Hc; [|now left].
    destruct (nullish choices) eqn:Hn; [now left|right].
    exact (translator_returns d choices Hc Hn). }
  destruct Hcases as [Hw|(r & Hr & Hs)].
  - rewrite (translator_throws d Hw). split; [|split].
    + split; [intros _; exact Hw|reflexivity].
    + intros e H. now injection H as <-.
    + discriminate.
  - rewrite Hr. split; [|split].
    + split; [discriminate|].
      intros Hw. pose proof (translator_throws d Hw) as Ht. congruence.
    + discriminate.
    + intros r' H. now injection H as <-.
Qed.

(** ** Messages *)

Lemma or_default_nonempty (value : option jsstring) (fallback : jsstring) :
  fallback <> [] -> or_default value fallback <> [].
Proof. intros Hf. destruct value as [[|c s]|]; simpl; (exact Hf || discriminate). Qed.

(** X12.  No message the request translator makes has an empty role, and
    none has the role [model]: whatever the contents, every message goes
    out with a role, and [model] only ever goes out as [assistant]. *)
Theorem messages_have_wire_roles (c : ContentListUnion) :
  Forall (fun msg => message_role msg <> [] /\ message_role msg <> lit "model")
         (convertContentsToMessages c).
Proof.
  destruct c as [s|turns|turn|p|]; simpl; try constructor.
  - split; discriminate.
  - constructor.
  - apply Forall_map, Forall_forall. intros turn _.
    unfold convertContent. simpl.
    destruct (role turn) as [r|]; simpl; [|split; discriminate].
    destruct (jsstring_eqb r (lit "model")) eqn:Hr; simpl; [split; discriminate|].
    destruct r as [|x r']; simpl; [split; discriminate|].
    split; [discriminate|]. intros H. rewrite H in Hr. discriminate Hr.
Qed.

(** ** Tokens *)

Lemma counted_text_is_sent (c : ContentListUnion) :
  List.length (all_text c) = characters_sent c.
Proof.
  unfold characters_sent. f_equal.
  destruct c as [s|turns|turn|p|]; simpl; try reflexivity.
  - now rewrite app_nil_r.
  - rewrite map_map. f_equal. apply map_ext. intros turn.
    unfold convertContent, turn_text. simpl.
    destruct (parts turn) as [ps|]; [|reflexivity].
    symmetry. apply textParts_concatenated.
Qed.

Lemma countTokens_all_text (request : CountTokensParameters) (w : World) :
  countTokens request w
  = (Normal (mkCount (Math_ceil_quarter (List.length (all_text (count_contents request))))), w).
Proof.
  destruct request as [m c]. unfold countTokens, ret. simpl count_contents.
  repeat f_equal.
  destruct c as [s|turns|turn|p|]; try reflexivity.
  simpl. unfold join at 1. f_equal. apply map_ext. intros turn.
  unfold turn_text. destruct (parts turn) as [ps|]; [|reflexivity].
  apply counted_parts_concatenated.
Qed.

(** X13.  [countTokens] counts exactly the characters that would be sent:
    for every contents, its total is the ceiling of a quarter of the length
    of the contents of the messages that [convertContentsToMessages] makes
    of them, although the two methods select the text parts in different
    ways. *)
Theorem tokens_count_what_is_sent (request : CountTokensParameters) (w : World) :
  countTokens request w
  = (Normal (mkCount (Math_ceil_quarter (characters_sent (count_contents request)))), w).
Proof.
  rewrite countTokens_all_text.
  rewrite (counted_text_is_sent (count_contents request)).
  reflexivity.
Qed.

(** X14.  Estimates of conversations add up, with a loss of less than one
    token: the estimate of two lists of turns put together is at least
    each of their estimates, at most their sum, and at least their sum
    less one. *)
Theorem estimate_of_joined_turns (m : jsstring) (l1 l2 : list Content) (w : World) :
  exists n1 n2 n : Z,
    fst (countTokens (mkCountParameters m (contents_array l1)) w) = Normal (mkCount n1)
    /\ fst (countTokens (mkCountParameters m (contents_array l2)) w) = Normal (mkCount n2)
    /\ fst (countTokens (mkCountParameters m (contents_array (l1 ++ l2))) w)
       = Normal (mkCount n)
    /\ (n1 <= n)%Z /\ (n2 <= n)%Z /\ (n1 + n2 - 1 <= n <= n1 + n2)%Z.
Proof.
  rewrite !countTokens_all_text. do 3 eexists.
  split; [reflexivity|]. split; [reflexivity|]. split; [reflexivity|].
  simpl count_contents. simpl all_text. rewrite map_app, concat_app, length_app.
  pose proof (Math_ceil_quarter_bounds
                (List.length (List.concat (map turn_text l1)))).
  pose proof (Math_ceil_quarter_bounds
                (List.length (List.concat (map turn_text l2)))).
  pose proof (Math_ceil_quarter_bounds
                (List.length (List.concat (map turn_text l1))
                 + List.length (List.concat (map turn_text l2)))).
  lia.
Qed.

(** ** The constructor *)

(** X15.  The generator is never built with an empty base URL or an empty
    model: an environment variable that is set and not empty is taken as
    it is, and one that is unset or empty gives way to the default. *)
Theorem constructor_falls_back (env : string -> option jsstring) (key : jsstring) :
  let g := constructor env key in
  apiKey g = key
  /\ baseUrl g <> [] /\ model g <> []
  /\ (forall v, env "OPENROUTER_BASE_URL"%string = Some v -> v <> [] -> baseUrl g = v)
  /\ (forall v, env "OPENROUTER_MODEL"%string = Some v -> v <> [] -> model g = v)
  /\ (env "OPENROUTER_BASE_URL"%string = None
      \/ env "OPENROUTER_BASE_URL"%string = Some [] ->
      baseUrl g = lit "https://openrouter.ai/api/v1")
  /\ (env "OPENROUTER_MODEL"%string = None
      \/ env "OPENROUTER_MODEL"%string = Some [] ->
      model g = lit "google/gemini-2.0-flash-001").
Proof.
  cbv zeta. unfold constructor. cbn [apiKey baseUrl model].
  split; [reflexivity|].
  split; [apply or_default_nonempty; discriminate|].
  split; [apply or_default_nonempty; discriminate|].
  repeat split.
  - intros v -> Hv. destruct v; [contradiction|reflexivity].
  - intros v -> Hv. destruct v; [contradiction|reflexivity].
  - intros [-> | ->]; reflexivity.
  - intros [-> | ->]; reflexivity.
Qed.

(** ** Line feeds received *)

Lemma steady_utf8_lead (bom : bool) (b : N) :
  steady (fst (utf8_lead bom b)) = true.
Proof.
  unfold utf8_lead.
  repeat match goal with
         | |- context [if ?c then _ else _] => destruct c
         end; reflexivity.
Qed.

Lemma steady_decode_byte (d : TextDecoder) (b : Byte.byte) :
  steady (fst (decode_byte d b)) = true.
Proof.
  unfold decode_byte.
  assert (H : steady (fst (utf8_handler d (Byte.to_N b))) = true).
  { unfold utf8_handler.
    destruct (bytes_needed d =? 0); [apply steady_utf8_lead|].
    destruct ((Byte.to_N b <? lower_boundary d) || (upper_boundary d <? Byte.to_N b)).
    - pose proof (steady_utf8_lead (BOM_seen d) (Byte.to_N b)) as Hl.
      now destruct (utf8_lead (BOM_seen d) (Byte.to_N b)).
    - destruct (bytes_seen d + 1 =? bytes_needed d); [reflexivity|].
      unfold steady. simpl. apply orb_true_r. }
  destruct (utf8_handler d (Byte.to_N b)) as [d' scalars].
  destruct (serialize (BOM_seen d') scalars) as [bom out]. exact H.
Qed.

Lemma steady_decode (value : list Byte.byte) :
  forall d, steady d = true -> steady (decode_state d value) = true.
Proof.
  unfold decode_state.
  induction value as [|b rest IH]; intros d Hd; [exact Hd|].
  simpl. pose proof (steady_decode_byte d b) as Hb.
  destruct (decode_byte d b) as [d1 out1]. specialize (IH d1 Hb).
  now destruct (decode d1 rest).
Qed.

(** A byte below [0x80] closes whatever sequence was open, with U+FFFD,
    and stands for itself; the decoder is then at rest. *)
Lemma decode_ascii_byte (d : TextDecoder) (b : Byte.byte) :
  steady d = true ->
  Byte.to_N b <= 127 ->
  decode_byte d b
  = (at_rest true,
     (if bytes_needed d =? 0 then [] else [REPLACEMENT]) ++ [Byte.to_N b]).
Proof.
  intros Hd Hb. unfold decode_byte, utf8_handler, utf8_lead.
  assert (Hle : (Byte.to_N b <=? 127) = true) by now apply N.leb_le.
  assert (Hu : utf16 (Byte.to_N b) = [Byte.to_N b])
    by (unfold utf16; destruct (Byte.to_N b <? 65536) eqn:E;
        [reflexivity|apply N.ltb_ge in E; lia]).
  assert (Hbom : (Byte.to_N b =? 65279) = false) by (apply N.eqb_neq; lia).
  destruct (bytes_needed d =? 0) eqn:Hn.
  - rewrite Hle. simpl. rewrite Hu, Hbom. now destruct (BOM_seen d).
  - unfold steady in Hd. rewrite Hn in Hd. simpl in Hd. apply N.leb_le in Hd.
    assert (Hlow : (Byte.to_N b <? lower_boundary d) = true) by (apply N.ltb_lt; lia).
    rewrite Hlow, Hle. simpl. rewrite Hu. now destruct (BOM_seen d).
Qed.

Lemma count_LF_app (a b : jsstring) : count_LF (a ++ b) = (count_LF a + count_LF b)%nat.
Proof. unfold count_LF. now rewrite filter_app, length_app. Qed.

Lemma count_LF_free (s : jsstring) : LF_free s = true -> count_LF s = 0%nat.
Proof.
  unfold LF_free, count_LF. induction s as [|c r IH]; [reflexivity|].
  simpl. destruct (c =? LF); simpl; [discriminate|exact IH].
Qed.

Lemma count_LF_not_In (s : jsstring) : ~ In LF s -> count_LF s = 0%nat.
Proof.
  unfold count_LF. induction s as [|c r IH]; intros H; [reflexivity|].
  simpl. destruct (c =? LF) eqn:Hc.
  - apply N.eqb_eq in Hc. exfalso. apply H. now left.
  - apply IH. intros Hin. apply H. now right.
Qed.

Lemma count_LF_zero (s : jsstring) : count_LF s = 0%nat -> ~ In LF s.
Proof.
  unfold count_LF. induction s as [|c r IH]; intros H; [intros []|].
  simpl in H. destruct (c =? LF) eqn:Hc; [discriminate|].
  intros [Hin|Hin]; [subst c; now rewrite N.eqb_refl in Hc|now apply IH].
Qed.

(** Each line feed byte gives one line feed of text, and nothing else
    gives any. *)
Lemma decode_byte_count (d : TextDecoder) (b : Byte.byte) :
  sound d = true -> steady d = true ->
  count_LF (snd (decode_byte d b))
  = if Byte.eqb Byte.x0a b then 1%nat else 0%nat.
Proof.
  intros Hs Hd. destruct (Byte.eqb Byte.x0a b) eqn:Hb.
  - apply Byte.byte_dec_bl in Hb. subst b.
    rewrite decode_ascii_byte by (exact Hd || (vm_compute; discriminate)).
    simpl snd. rewrite count_LF_app. destruct (bytes_needed d =? 0); reflexivity.
  - apply count_LF_free. apply (decode_byte_sound d b Hs).
    intros ->. vm_compute in Hb. discriminate.
Qed.

Lemma decode_count (value : list Byte.byte) :
  forall d, sound d = true -> steady d = true ->
  count_LF (decode_text d value) = List.length (filter (Byte.eqb Byte.x0a) value).
Proof.
  unfold decode_text.
  induction value as [|b rest IH]; intros d Hs Hd; [reflexivity|].
  simpl. pose proof (decode_byte_count d b Hs Hd) as Hc.
  pose proof (steady_decode_byte d b) as Hd1.
  destruct (decode_byte_sound d b Hs) as [Hs1 _].
  destruct (decode_byte d b) as [d1 out1]. simpl in *.
  specialize (IH d1 Hs1 Hd1). destruct (decode d1 rest) as [d2 out2]. simpl in *.
  rewrite count_LF_app, Hc, IH. destruct (Byte.eqb Byte.x0a b); reflexivity.
Qed.

Lemma split_LF_length (s : jsstring) :
  List.length (split_LF s) = S (count_LF s).
Proof.
  unfold count_LF. induction s as [|c r IH]; [reflexivity|].
  simpl. destruct (c =? LF); simpl; [now rewrite IH|].
  pose proof (split_LF_nonempty r) as Hne.
  destruct (split_LF r); [contradiction|]. simpl in *. exact IH.
Qed.

Lemma complete_lines_length (s : jsstring) :
  List.length (complete_lines s) = count_LF s.
Proof.
  unfold complete_lines. rewrite removelast_firstn_len, length_firstn, split_LF_length.
  simpl. lia.
Qed.

Lemma responses_of_length (lines : list jsstring) :
  (List.length (responses_of lines) <= List.length lines)%nat.
Proof.
  unfold responses_of. induction lines as [|l ls IH]; [simpl; lia|].
  simpl. rewrite length_app. destruct (frame_of_line l); simpl; lia.
Qed.

Lemma before_termination_length (lines : list jsstring) :
  (List.length (before_termination lines) <= List.length lines)%nat.
Proof.
  induction lines as [|l ls IH]; [simpl; lia|].
  simpl. destruct (is_termination_frame l); simpl; lia.
Qed.

Lemma for_lines_length (lines : list jsstring) :
  (List.length (fst (for_lines lines)) <= List.length lines)%nat.
Proof.
  rewrite for_lines_closed. simpl.
  pose proof (responses_of_length (before_termination lines)).
  pose proof (before_termination_length lines). lia.
Qed.

(** X16.  At most one response per line.  For every reader, the number
    of responses the generator yields is at most the number of line feed
    bytes in the chunks the reader holds: a body without a line feed
    yields nothing, however much it holds. *)
Theorem one_response_per_line_feed (reader : list ReadResult) :
  (List.length (yielded (generator reader)) <= line_feeds reader)%nat.
Proof.
  unfold generator.
  assert (H : forall d buffer, sound d = true -> steady d = true -> ~ In LF buffer ->
            (List.length (yielded (read_loop reader d buffer)) <= line_feeds reader)%nat).
  { induction reader as [|[value|e] reader IH]; intros d buffer Hs Hd Hb;
      [simpl; lia| |simpl; lia].
    rewrite read_loop_value. cbv zeta.
    pose proof (for_lines_length (complete_lines (buffer ++ decode_text d value))) as Hl.
    rewrite complete_lines_length, count_LF_app, (count_LF_not_In _ Hb),
      (decode_count value d Hs Hd) in Hl.
    cbn [line_feeds].
    destruct (snd (for_lines _)); [simpl in *; lia|].
    specialize (IH (decode_state d value)
                  (partial_line (buffer ++ decode_text d value))
                  (proj1 (decode_sound value d Hs))
                  (steady_decode value d Hd)
                  (partial_line_no_LF _)).
    simpl. rewrite length_app. simpl in Hl. lia. }
  apply H; (reflexivity || intros []).
Qed.

(** ** Line endings *)

Lemma trimStart_snoc (s : jsstring) (c : code_unit) :
  is_js_whitespace c = true ->
  trimStart (s ++ [c])
  = match trimStart s with
    | [] => []
    | x :: r => (x :: r) ++ [c]
    end.
Proof.
  intros Hc. induction s as [|x s IH]; simpl.
  - now rewrite Hc.
  - destruct (is_js_whitespace x); [exact IH|reflexivity].
Qed.

Lemma trimEnd_snoc (s : jsstring) (c : code_unit) :
  is_js_whitespace c = true -> trimEnd (s ++ [c]) = trimEnd s.
Proof.
  intros Hc. unfold trimEnd. rewrite rev_app_distr. simpl. now rewrite Hc.
Qed.

(** White space at the end of a line does not count. *)
Lemma trim_snoc (s : jsstring) (c : code_unit) :
  is_js_whitespace c = true -> trim (s ++ [c]) = trim s.
Proof.
  intros Hc. unfold trim. rewrite (trimStart_snoc s c Hc).
  destruct (trimStart s) as [|x r]; [reflexivity|].
  now apply trimEnd_snoc.
Qed.

(** The loop looks at a line only through [trim]. *)
Lemma for_lines_trim (l1 l2 : list jsstring) :
  map trim l1 = map trim l2 -> for_lines l1 = for_lines l2.
Proof.
  revert l2. induction l1 as [|a l1 IH]; intros [|b l2] H; try discriminate;
    [reflexivity|].
  simpl in H. injection H as Hab Hrest. simpl. rewrite <- Hab.
  now rewrite (IH l2 Hrest).
Qed.

Lemma split_LF_line (u rest : jsstring) :
  ~ In LF u -> split_LF (u ++ LF :: rest) = u :: split_LF rest.
Proof.
  induction u as [|c u IH]; intros Hu; [reflexivity|].
  simpl. destruct (c =? LF) eqn:Hc.
  - apply N.eqb_eq in Hc. exfalso. apply Hu. now left.
  - rewrite IH; [reflexivity|]. intros H. apply Hu. now right.
Qed.

Lemma complete_lines_of_lines (us : list jsstring) :
  Forall (fun u => ~ In LF u) us ->
  complete_lines (List.concat (map (fun u => u ++ [LF]) us)) = us.
Proof.
  unfold complete_lines. induction 1 as [|u us Hu Hus IH]; [reflexivity|].
  simpl. rewrite <- app_assoc. simpl. rewrite (split_LF_line _ _ Hu).
  pose proof (split_LF_nonempty (List.concat (map (fun u0 => u0 ++ [LF]) us))) as Hne.
  simpl. destruct (split_LF _); [contradiction|]. now rewrite <- IH.
Qed.

(** A line feed, or a carriage return and a line feed, after any bytes
    without a line feed: the same text before the line ending, and the
    decoder at rest after it. *)
Lemma decode_line (d : TextDecoder) (l : list Byte.byte) :
  sound d = true -> steady d = true -> ~ In Byte.x0a l ->
  exists u,
    ~ In LF u
    /\ decode d (l ++ [Byte.x0a]) = (at_rest true, u ++ [LF])
    /\ decode d (l ++ [Byte.x0d; Byte.x0a]) = (at_rest true, u ++ [CR; LF]).
Proof.
  intros Hs Hd Hl.
  destruct (decode_sound l d Hs) as [Hs' Hno]. specialize (Hno Hl).
  pose proof (steady_decode l d Hd) as Hd'.
  set (d' := decode_state d l) in *.
  set (p := if bytes_needed d' =? 0 then [] else [REPLACEMENT]).
  assert (Hp : ~ In LF p)
    by (unfold p; destruct (bytes_needed d' =? 0); [intros []|intros [H|[]]; discriminate H]).
  exists (decode_text d l ++ p). split; [|split].
  - intros H. apply in_app_or in H as [H|H]; contradiction.
  - rewrite decode_app. fold d'. unfold decode_state, decode_text at 2. simpl.
    rewrite (decode_ascii_byte d' Byte.x0a Hd') by (vm_compute; discriminate).
    simpl. fold p. now rewrite app_nil_r, app_assoc.
  - rewrite decode_app. fold d'. unfold decode_state, decode_text at 2. simpl.
    rewrite (decode_ascii_byte d' Byte.x0d Hd') by (vm_compute; discriminate).
    rewrite (decode_ascii_byte (at_rest true) Byte.x0a eq_refl)
      by (vm_compute; discriminate).
    simpl. fold p. rewrite <- !app_assoc. reflexivity.
Qed.

Lemma decode_lines (ls : list (list Byte.byte)) :
  Forall (fun l => ~ In Byte.x0a l) ls ->
  forall d, sound d = true -> steady d = true ->
  exists us,
    Forall (fun u => ~ In LF u) us
    /\ decode_text d (lines_with [Byte.x0a] ls)
       = List.concat (map (fun u => u ++ [LF]) us)
    /\ decode_text d (lines_with [Byte.x0d; Byte.x0a] ls)
       = List.concat (map (fun u => (u ++ [CR]) ++ [LF]) us).
Proof.
  unfold lines_with.
  induction 1 as [|l ls Hl Hls IH]; intros d Hs Hd.
  - exists []. repeat split. constructor.
  - destruct (decode_line d l Hs Hd Hl) as (u & Hu & HA & HB).
    destruct (IH (at_rest true) eq_refl eq_refl) as (us & Hus & HA' & HB').
    exists (u :: us). split; [now constructor|].
    assert (HAt : decode_text d (l ++ [Byte.x0a]) = u ++ [LF])
      by (unfold decode_text; now rewrite HA).
    assert (HAs : decode_state d (l ++ [Byte.x0a]) = at_rest true)
      by (unfold decode_state; now rewrite HA).
    assert (HBt : decode_text d (l ++ [Byte.x0d; Byte.x0a]) = u ++ [CR; LF])
      by (unfold decode_text; now rewrite HB).
    assert (HBs : decode_state d (l ++ [Byte.x0d; Byte.x0a]) = at_rest true)
      by (unfold decode_state; now rewrite HB).
    cbn [map List.concat].
    rewrite (decode_text_app d (l ++ [Byte.x0a])),
      (decode_text_app d (l ++ [Byte.x0d; Byte.x0a])).
    rewrite HAt, HAs, HBt, HBs, HA', HB'.
    split; [reflexivity|]. now rewrite <- (app_assoc u [CR] [LF]).
Qed.

(** X17.  Carriage returns before the line feeds make no difference.  A
    body whose lines end in CR LF, cut into reads in any way, makes the
    generator yield the same responses and end the same way as the body
    with the same lines ending in LF alone, cut in any way. *)
Theorem CRLF_decodes_as_LF (ls : list (list Byte.byte))
  (chunks_CRLF chunks_LF : list (list Byte.byte)) :
  Forall (fun l => ~ In Byte.x0a l) ls ->
  List.concat chunks_CRLF = lines_with [Byte.x0d; Byte.x0a] ls ->
  List.concat chunks_LF = lines_with [Byte.x0a] ls ->
  yielded (generator (map ReadValue chunks_CRLF))
  = yielded (generator (map ReadValue chunks_LF))
  /\ outcome (generator (map ReadValue chunks_CRLF))
     = outcome (generator (map ReadValue chunks_LF)).
Proof.
  intros Hls HA HB.
  destruct (generator_values chunks_CRLF) as (Hy & Ho & _ & _).
  destruct (generator_values chunks_LF) as (Hy' & Ho' & _ & _).
  rewrite Hy, Ho, Hy', Ho', HA, HB. unfold decoded.
  destruct (decode_lines ls Hls new_TextDecoder eq_refl eq_refl)
    as (us & Hus & HtB & HtA).
  rewrite HtA, HtB.
  rewrite <- (map_map (fun u => u ++ [CR]) (fun u => u ++ [LF])).
  rewrite !complete_lines_of_lines; try exact Hus.
  - assert (Ht : for_lines (map (fun u => u ++ [CR]) us) = for_lines us).
    { apply for_lines_trim. rewrite map_map. apply map_ext.
      intros u. now apply trim_snoc. }
    now rewrite Ht.
  - apply Forall_map. revert Hus. apply Forall_impl. intros u Hu H.
    apply in_app_or in H as [H|[H|[]]]; [contradiction|discriminate H].
Qed.

Lemma CRLF_decodes_as_LF_witness :
  let ls := [list_byte_of_string frame_Hi; []; list_byte_of_string "data: [DONE]"] in
  let chunks_CRLF := [firstn 20 (lines_with [Byte.x0d; Byte.x0a] ls);
                      skipn 20 (lines_with [Byte.x0d; Byte.x0a] ls)] in
  let chunks_LF := [lines_with [Byte.x0a] ls] in
  yielded (generator (map ReadValue chunks_CRLF))
  = yielded (generator (map ReadValue chunks_LF))
  /\ outcome (generator (map ReadValue chunks_CRLF))
     = outcome (generator (map ReadValue chunks_LF)).
Proof.
  apply (CRLF_decodes_as_LF
           [list_byte_of_string frame_Hi; []; list_byte_of_string "data: [DONE]"]).
  - vm_compute. repeat constructor; intuition discriminate.
  - vm_compute. reflexivity.
  - vm_compute. reflexivity.
Defined.

(** ** Frames that yield *)

Lemma try_frame_truthy (trimmed : jsstring) (d content : jsval) :
  JSON_parse (slice 6 trimmed) = Normal d ->
  delta_content d = Normal content ->
  ToBoolean content = true ->
  exists f,
    first_finish_reason d = Normal f
    /\ frame trimmed
       = Some (mkGenerateContentResponse
                 [mkCandidate (mkCandidateContent [content] (lit "model"))
                              (logical_or f JUndefined) None]
                 content None).
Proof.
  intros Hp Hc Ht. unfold frame, try_frame, first_finish_reason. rewrite Hp. simpl.
  unfold delta_content in Hc.
  destruct (get d P_choices) as [choices|]; simpl in *; [|discriminate].
  destruct (get choices P_0) as [choice|]; simpl in *; [|discriminate].
  destruct (get_optional choice P_delta) as [delta|]; simpl in *; [|discriminate].
  rewrite Hc. simpl. rewrite Ht.
  destruct (get_optional_normal choice P_finish_reason) as [f Hf].
  rewrite Hf. simpl. now exists f.
Qed.

(** X18.  A frame with delta text yields one response, in its place.  Let
    a complete line that is not preceded by a termination frame begin,
    once trimmed, with [data: ], let its payload parse, and let the delta
    content of its first choice be truthy.  Then the generator yields, after
    the responses of the lines before it and before those of the lines
    after it, one response whose text and whose one part are that content
    as it stands, and whose finish reason is the one of the first choice,
    or [undefined] when that is missing, [null] or empty. *)
Theorem frame_yields_its_delta
  (values : list (list Byte.byte)) (before after : list jsstring)
  (line : jsstring) (d content : jsval) :
  complete_lines (decoded (List.concat values)) = before ++ line :: after ->
  existsb is_termination_frame before = false ->
  startsWith (trim line) data_prefix = true ->
  JSON_parse (slice 6 (trim line)) = Normal d ->
  delta_content d = Normal content ->
  ToBoolean content = true ->
  exists f,
    first_finish_reason d = Normal f
    /\ yielded (generator (map ReadValue values))
       = responses_of before
         ++ mkGenerateContentResponse
              [mkCandidate (mkCandidateContent [content] (lit "model"))
                           (logical_or f JUndefined) None]
              content None
         :: responses_of (before_termination after).
Proof.
  intros Hl Hb Hp Hd Hc Ht.
  destruct (try_frame_truthy _ d content Hd Hc Ht) as (f & Hf & Hfr).
  exists f. split; [exact Hf|].
  destruct (generator_values values) as (Hy & _).
  rewrite for_lines_closed in Hy. simpl in Hy. rewrite Hy, Hl.
  assert (Hline : is_termination_frame line = false).
  { unfold is_termination_frame. destruct (jsstring_eqb (trim line) DONE) eqn:He;
      [|reflexivity].
    apply jsstring_eqb_eq in He. rewrite He in Hd. vm_compute in Hd. discriminate. }
  clear Hy Hl. induction before as [|b before IH].
  - simpl. rewrite Hline. unfold responses_of. simpl.
    unfold frame_of_line at 1. now rewrite Hp, Hfr.
  - simpl in Hb. simpl. destruct (is_termination_frame b); [discriminate|].
    simpl in Hb. unfold responses_of in *. simpl. rewrite (IH Hb).
    now rewrite <- app_assoc.
Qed.

Lemma frame_yields_its_delta_witness :
  exists f,
    first_finish_reason
      (JObject [(lit "choices",
                 JArray [JObject [(lit "delta", JObject [(lit "content", JString (lit " there"))]);
                                  (lit "finish_reason", JString (lit "stop"))]])])
    = Normal f
    /\ yielded (generator (map ReadValue [line_bytes frame_Hi ++ line_bytes frame_there]))
       = responses_of [lit frame_Hi]
         ++ mkGenerateContentResponse
              [mkCandidate (mkCandidateContent [JString (lit " there")] (lit "model"))
                           (logical_or f JUndefined) None]
              (JString (lit " there")) None
         :: responses_of (before_termination []).
Proof.
  apply (frame_yields_its_delta
           [line_bytes frame_Hi ++ line_bytes frame_there]
           [lit frame_Hi] [] (lit frame_there)).
  - reflexivity.
  - reflexivity.
  - reflexivity.
  - reflexivity.
  - reflexivity.
  - reflexivity.
Defined.

(** ** The generator call by call *)

Lemma scan_for_lines (lines : list jsstring) :
  for_lines lines
  = match scan_lines lines with
    | ScanYield r rest => (r :: fst (for_lines rest), snd (for_lines rest))
    | ScanReturn => ([], true)
    | ScanEnd => ([], false)
    end.
Proof.
  induction lines as [|line rest IH]; [reflexivity|].
  simpl. destruct (trim line) as [|c t]; [exact IH|].
  destruct (jsstring_eqb (c :: t) DONE); [reflexivity|].
  destruct (startsWith (c :: t) data_prefix); [|exact IH].
  destruct (frame (c :: t)); [|exact IH].
  now destruct (for_lines rest).
Qed.

Lemma resume_reading_value (value : list Byte.byte) (reader : list ReadResult)
  (d : TextDecoder) (buffer : jsstring) :
  resume_reading (ReadValue value :: reader) d buffer =
  let buffer1 := buffer ++ decode_text d value in
  match scan_lines (complete_lines buffer1) with
  | ScanYield r rest =>
      mkResumption (IterValue r)
        (SuspendedYield rest reader (decode_state d value) (partial_line buffer1)) 1 0
  | ScanReturn => mkResumption IterDone Closed 1 1
  | ScanEnd =>
      let k := resume_reading reader (decode_state d value) (partial_line buffer1) in
      mkResumption (iter_result k) (iter_state k) (S (iter_reads k)) (iter_releases k)
  end.
Proof.
  simpl. rewrite decode_pair, pop_split_LF. cbv zeta.
  now destruct (partial_line (buffer ++ decode_text d value)).
Qed.

Lemma resume_reading_unfolds (reader : list ReadResult) :
  forall d buffer,
    unfolds (resume_reading reader d buffer) (read_loop reader d buffer).
Proof.
  induction reader as [|[value|e] reader IH]; intros d buffer;
    [repeat split| |repeat split].
  rewrite resume_reading_value, read_loop_value. cbv zeta.
  rewrite (scan_for_lines (complete_lines (buffer ++ decode_text d value))).
  destruct (scan_lines _) as [r rest| |].
  - unfold unfolds. simpl. unfold run_from.
    destruct (snd (for_lines rest)); simpl; repeat split;
      try now rewrite reader_released_once.
  - repeat split.
  - simpl. specialize (IH (decode_state d value)
                         (partial_line (buffer ++ decode_text d value))).
    unfold unfolds in *. simpl.
    destruct (iter_result (resume_reading reader _ _)).
    + destruct IH as (Hy & Ho & Hr & Hl & Hc). rewrite Hy, Ho, Hr, Hl.
      repeat split; try exact Hc.
    + destruct IH as (Hy & Ho & Hr & Hl). rewrite Hy, <- Ho, Hr, Hl. repeat split.
    + destruct IH as (Hy & Ho & Hr & Hl). rewrite Hy, <- Ho, Hr, Hl. repeat split.
Qed.

Lemma next_unfolds (g : GeneratorState) :
  is_closed g = false -> unfolds (call call_next g) (run_of g).
Proof.
  destruct g as [reader|pending reader d buffer|]; intros Hg; [| |discriminate].
  - apply resume_reading_unfolds.
  - simpl. unfold resume_lines, run_from. rewrite (scan_for_lines pending).
    destruct (scan_lines pending) as [r rest| |].
    + unfold unfolds. simpl. unfold run_from.
      destruct (snd (for_lines rest)); simpl; repeat split;
        try now rewrite reader_released_once.
    + repeat split.
    + simpl. pose proof (resume_reading_unfolds reader d buffer) as H.
      unfold unfolds in *. unfold after_reads. simpl.
      destruct (iter_result (resume_reading reader d buffer)); exact H.
Qed.

Lemma for_await_drains (fuel : nat) :
  forall g,
    is_closed g = false ->
    (List.length (yielded (run_of g)) < fuel)%nat ->
    for_await fuel g
    = (yielded (run_of g), Some (last_result (outcome (run_of g))),
       reads (run_of g), released (run_of g)).
Proof.
  induction fuel as [|fuel IH]; intros g Hg Hf; [lia|].
  pose proof (next_unfolds g Hg) as H. unfold unfolds in H.
  cbn [for_await]. destruct (iter_result (call call_next g)) as [r| |e].
  - destruct H as (Hy & Ho & Hr & Hl & Hc).
    rewrite IH by (exact Hc || (rewrite Hy in Hf; simpl in Hf; lia)).
    now rewrite Hy, Ho, Hr, Hl.
  - destruct H as (Hy & Ho & Hr & Hl). now rewrite Hy, <- Ho, Hr, Hl.
  - destruct H as (Hy & Ho & Hr & Hl). now rewrite Hy, <- Ho, Hr, Hl.
Qed.

(** X19.  A consumer that calls [next] until the generator is done or
    rejects receives, one value per call, exactly the responses of the
    drained run, in order, and then [done] when the run ends by completion
    or by [return] and the rejection when it ends in failure; by then the
    calls of [read] add up to those of the run, and the lock has been
    released once. *)
Theorem for_await_gives_the_run (reader : list ReadResult) :
  let run := generator reader in
  for_await (S (List.length (yielded run))) (SuspendedStart reader)
  = (yielded run, Some (last_result (outcome run)), reads run, 1%nat).
Proof.
  cbv zeta.
  rewrite (for_await_drains _ (SuspendedStart reader) eq_refl) by (simpl; lia).
  simpl. unfold generator. now rewrite reader_released_once.
Qed.

Lemma resume_reading_accounts (reader : list ReadResult) :
  forall d buffer,
    let k := resume_reading reader d buffer in
    (iter_releases k + owed (iter_state k) = 1)%nat
    /\ (iter_reads k + reads_left (iter_state k) <= S (List.length reader))%nat
    /\ (1 <= iter_reads k)%nat
    /\ (forall reader', iter_state k <> SuspendedStart reader').
Proof.
  induction reader as [|[value|e] reader IH]; intros d buffer;
    [simpl; repeat split; (lia || discriminate)|
    |simpl; repeat split; (lia || discriminate)].
  cbv zeta. rewrite resume_reading_value. cbv zeta.
  destruct (scan_lines _) as [r rest| |].
  - simpl. repeat split; (lia || discriminate).
  - simpl. repeat split; (lia || discriminate).
  - destruct (IH (decode_state d value)
                (partial_line (buffer ++ decode_text d value)))
      as (Hl & Hr & H1 & Hs).
    cbn [iter_result iter_state iter_reads iter_releases List.length].
    repeat split; (lia || exact Hs).
Qed.

Lemma call_accounts (c : Call) (g : GeneratorState) :
  (forall reader, g <> SuspendedStart reader) ->
  let k := call c g in
  (iter_releases k + owed (iter_state k) = owed g)%nat
  /\ (iter_reads k + reads_left (iter_state k) <= reads_left g)%nat
  /\ (forall reader', iter_state k <> SuspendedStart reader').
Proof.
  intros Hg. destruct g as [reader|pending reader d buffer|];
    [now elim (Hg reader)| |destruct c; simpl; repeat split; (lia || discriminate)].
  assert (Hlines :
    let k := resume_lines pending reader d buffer in
    (iter_releases k + owed (iter_state k) = 1)%nat
    /\ (iter_reads k + reads_left (iter_state k) <= S (List.length reader))%nat
    /\ (forall reader', iter_state k <> SuspendedStart reader')).
  { cbv zeta. unfold resume_lines. destruct (scan_lines pending) as [r rest| |].
    - simpl. repeat split; (lia || discriminate).
    - simpl. repeat split; (lia || discriminate).
    - destruct (resume_reading_accounts reader d buffer) as (Hl & Hr & _ & Hs).
      repeat split; assumption. }
  destruct c; [exact Hlines| |exact Hlines].
  simpl. repeat split; (lia || discriminate).
Qed.

Lemma calls_account (cs : list Call) :
  forall g,
    (forall reader, g <> SuspendedStart reader) ->
    let s := calls cs g in
    (session_releases s + owed (final_state s) = owed g)%nat
    /\ (session_reads s + reads_left (final_state s) <= reads_left g)%nat.
Proof.
  induction cs as [|c cs IH]; intros g Hg; [simpl; lia|].
  destruct (call_accounts c g Hg) as (Hl & Hr & Hs).
  destruct (IH (iter_state (call c g)) Hs) as (Hl' & Hr').
  cbn [calls final_state session_reads session_releases]. lia.
Qed.

Lemma owed_closed (g : GeneratorState) :
  (forall reader, g <> SuspendedStart reader) ->
  owed g = if is_closed g then 0%nat else 1%nat.
Proof.
  destruct g as [reader| |]; [intros H; now elim (H reader)|reflexivity|reflexivity].
Qed.

Lemma calls_started (cs : list Call) :
  forall g,
    (forall reader, g <> SuspendedStart reader) ->
    forall reader, final_state (calls cs g) <> SuspendedStart reader.
Proof.
  induction cs as [|c cs IH]; intros g Hg; [exact Hg|].
  cbn [calls final_state]. apply IH. now apply call_accounts.
Qed.

(** X6.  The lock on the body, whatever the consumer does with the
    generator.  A generator that is never called reads nothing and keeps
    the lock.  One whose first call is [return] or [throw] is closed
    without its body having run: nothing is read and the lock is never
    released.  One whose first call is [next] reads at least once and at
    most once more than the stream has chunks, and releases the lock
    exactly once if the calls leave it closed, and not at all while it
    stays suspended at a [yield]. *)
Theorem lock_follows_the_calls (reader : list ReadResult) (cs : list Call) :
  let s := calls cs (SuspendedStart reader) in
  match cs with
  | [] => session_reads s = 0%nat /\ session_releases s = 0%nat
  | call_next :: _ =>
      session_releases s = (if is_closed (final_state s) then 1%nat else 0%nat)
      /\ (1 <= session_reads s <= S (List.length reader))%nat
  | _ :: _ =>
      session_reads s = 0%nat /\ session_releases s = 0%nat
      /\ final_state s = Closed
  end.
Proof.
  cbv zeta. destruct cs as [|[| |e] cs]; [now split| | |].
  - destruct (resume_reading_accounts reader new_TextDecoder [])
      as (Hl & Hr & H1 & Hs).
    destruct (calls_account cs _ Hs) as (Hl' & Hr').
    pose proof (owed_closed _ (calls_started cs _ Hs)) as Ho.
    cbn [calls call final_state session_reads session_releases] in *.
    destruct (is_closed _); lia.
  - assert (Hc : forall reader', Closed <> SuspendedStart reader') by discriminate.
    destruct (calls_account cs Closed Hc) as (Hl & Hr).
    pose proof (owed_closed _ (calls_started cs _ Hc)) as Ho.
    cbn [calls call final_state session_reads session_releases
         iter_state iter_reads iter_releases owed reads_left] in *.
    repeat split; try lia.
    destruct (final_state (calls cs Closed)) as [r| |];
      [now elim (calls_started cs _ Hc r)|simpl in Hr; lia|reflexivity].
  - assert (Hc : forall reader', Closed <> SuspendedStart reader') by discriminate.
    destruct (calls_account cs Closed Hc) as (Hl & Hr).
    pose proof (owed_closed _ (calls_started cs _ Hc)) as Ho.
    cbn [calls call final_state session_reads session_releases
         iter_state iter_reads iter_releases owed reads_left] in *.
    repeat split; try lia.
    destruct (final_state (calls cs Closed)) as [r| |];
      [now elim (calls_started cs _ Hc r)|simpl in Hr; lia|reflexivity].
Qed.

Lemma resume_reading_stops (reader : list ReadResult) :
  forall d buffer r,
    let k := resume_reading reader d buffer in
    iter_result k = IterValue r ->
    (exists pending d' buffer',
        iter_state k
        = SuspendedYield pending (skipn (iter_reads k) reader) d' buffer')
    /\ yielded (read_loop (firstn (pred (iter_reads k)) reader) d buffer) = []
    /\ hd_error (yielded (read_loop (firstn (iter_reads k) reader) d buffer))
       = Some r.
Proof.
  induction reader as [|[value|e] reader IH]; intros d buffer r;
    [discriminate| |discriminate].
  cbv zeta. rewrite resume_reading_value. cbv zeta.
  pose proof (scan_for_lines (complete_lines (buffer ++ decode_text d value)))
    as Hscan.
  destruct (scan_lines _) as [r0 rest| |]; [|discriminate|].
  - cbn [iter_result iter_state iter_reads pred firstn skipn]. intros [= ->].
    split; [now eexists _, _, _|]. split; [reflexivity|].
    rewrite read_loop_value. cbv zeta. rewrite Hscan.
    cbn [fst snd]. now destruct (snd (for_lines rest)).
  - cbn [iter_result iter_state iter_reads pred skipn]. intros Hr.
    destruct (IH _ _ _ Hr) as (Hs & H0 & H1).
    destruct (resume_reading_accounts reader (decode_state d value)
                (partial_line (buffer ++ decode_text d value)))
      as (_ & _ & Hpos & _).
    split; [exact Hs|].
    destruct (iter_reads (resume_reading reader _ _)) as [|n]; [lia|].
    cbn [pred] in H0.
    change (firstn (S n) (ReadValue value :: reader))
      with (ReadValue value :: firstn n reader).
    change (firstn (S (S n)) (ReadValue value :: reader))
      with (ReadValue value :: firstn (S n) reader).
    rewrite !read_loop_value. cbv zeta. rewrite Hscan. cbn [fst snd].
    unfold after_reads. cbn [yielded app]. now split.
Qed.

(** X20.  A call of [next] reads no further than it must.  When the first
    call gives a value after [n] reads, the generator is suspended with
    every chunk after the first [n] still unread; the first [n - 1] chunks
    alone yield nothing, and the value is the first that the first [n]
    chunks yield. *)
Theorem next_reads_no_further (reader : list ReadResult)
  (r : GenerateContentResponse) :
  let k := call call_next (SuspendedStart reader) in
  iter_result k = IterValue r ->
  (exists pending d buffer,
      iter_state k
      = SuspendedYield pending (skipn (iter_reads k) reader) d buffer)
  /\ yielded (generator (firstn (pred (iter_reads k)) reader)) = []
  /\ hd_error (yielded (generator (firstn (iter_reads k) reader))) = Some r.
Proof.
  cbv zeta. intros H.
  exact (resume_reading_stops reader new_TextDecoder [] r H).
Qed.

Lemma next_reads_no_further_witness :
  iter_result (call call_next (SuspendedStart three_chunks))
  = IterValue (partial_response "Hi" JUndefined)
  /\ iter_reads (call call_next (SuspendedStart three_chunks)) = 2%nat
  /\ (exists pending d buffer,
         iter_state (call call_next (SuspendedStart three_chunks))
         = SuspendedYield pending
             (skipn (iter_reads (call call_next (SuspendedStart three_chunks)))
                three_chunks) d buffer)
  /\ yielded (generator
                (firstn (pred (iter_reads
                                 (call call_next (SuspendedStart three_chunks))))
                   three_chunks)) = []
  /\ hd_error
       (yielded (generator
                   (firstn (iter_reads
                              (call call_next (SuspendedStart three_chunks)))
                      three_chunks)))
     = Some (partial_response "Hi" JUndefined).
Proof.
  split; [reflexivity|]. split; [reflexivity|].
  apply (next_reads_no_further three_chunks (partial_response "Hi" JUndefined)).
  reflexivity.
Defined.
